(** * Play-money betting backend: placement and settlement

    A shallow embedding of [src/main.py] (the FastAPI handlers [place_bet]
    and [settle_event], with the helper [oid] they call, and further down
    [seed_events], [list_events], [create_bettor], [get_bettor], [list_bets]
    and [serialize]) and of
    [src/schemas.py] (the pydantic models [Outcome], [Event], [Bettor] and
    [Bet] with their field constraints), over an explicit model of the three
    MongoDB collections the handlers read and write.

    - Numbers are Python floats, that is IEEE-754 binary64 values: they are
      Rocq's primitive [float], whose operations are the binary64 ones, and
      [round(x, 2)] is modelled after CPython.
    - A collection is a finite map from [_id] to document.  Documents are
      records shaped by the schemas; a field is optional where a handler
      reads it with [dict.get] and a default value.
    - A handler is a function of the store that returns or raises, and
      gives back the store with the writes made so far.
    - The [created_at] and [updated_at] time stamps, which the handlers
      write from the wall clock and never read, are left out of the
      documents.
    - [database.py] is not among the sources: [db] is modelled by the
      operations of MongoDB that the handlers call, and [create_document]
      from the spec. *)

From Stdlib Require Import ZArith Bool Ascii String List Lia.
From Stdlib Require Import PrimFloat SpecFloat FloatOps FloatAxioms.
From stdpp Require Import base option list gmap strings sorting.

Local Open Scope string_scope.
Local Open Scope Z_scope.

(** ** Python floats *)

Module PyFloat.

(** Nearest integer to [a / b] for [0 <= a] and [0 < b], ties going to the
    even neighbour. *)
Definition div_half_even (a b : Z) : Z :=
  let q := a / b in
  match (2 * (a mod b) ?= b) with
  | Lt => q
  | Gt => q + 1
  | Eq => if Z.even q then q else q + 1
  end.

(** The number of hundredths nearest to the exact value [m * 2^e] of a
    finite float (CPython's [_Py_dg_dtoa] in mode 3 with two digits:
    correctly rounded, ties to even, on the exact binary value). *)
Definition hundredths (m : positive) (e : Z) : Z :=
  match e with
  | Zneg p => div_half_even (100 * Zpos m) (2 ^ Zpos p)
  | _ => 100 * Zpos m * 2 ^ e
  end.

(** [round(x, 2)] on a float, as CPython's [float.__round__] computes it:
    NaN, the infinities and the zeros round to themselves; a finite [x] is
    rounded to the nearest decimal with two fractional digits and that
    decimal is read back as the nearest float ([_Py_dg_strtod]), the sign
    being kept when the result is zero. *)
Definition round2 (x : float) : float :=
  match Prim2SF x with
  | S754_finite s m e =>
      match hundredths m e with
      | Zpos n =>
          SF2Prim (SFdiv prec emax (S754_finite s n 0) (S754_finite false 100 0))
      | _ => if s then neg_zero else zero
      end
  | _ => x
  end.

End PyFloat.

Import PyFloat.

(** ** Object identifiers ([bson.ObjectId])

    An [ObjectId] is twelve bytes; [str] prints it as 24 lower-case
    hexadecimal digits and the constructor is taken to accept the texts of
    24 hexadecimal digits, in either case.  An identifier is modelled by
    the text [str] prints. *)

Abbreviation ObjectId := string.

Definition is_hex_digit (c : ascii) : bool :=
  let n := N_of_ascii c in
  ((48 <=? n) && (n <=? 57) || (65 <=? n) && (n <=? 70)
   || (97 <=? n) && (n <=? 102))%N.

Definition lower_hex (c : ascii) : ascii :=
  let n := N_of_ascii c in
  if ((65 <=? n) && (n <=? 70))%N then ascii_of_N (n + 32) else c.

Definition str_map (f : ascii -> ascii) (s : string) : string :=
  string_of_list_ascii (List.map f (list_ascii_of_string s)).

Definition ObjectId_is_valid (val : string) : bool :=
  (String.length val =? 24)%nat
  && forallb is_hex_digit (list_ascii_of_string val).

(** ** Exceptions and handlers *)

Inductive Exception : Type :=
| HTTPException (status_code : Z) (detail : string)
| ValidationError (model : string) (fields : list string).

(** How a call ends. *)
Inductive Completion (A : Type) : Type :=
| Returned (a : A)
| Raised (e : Exception).
Arguments Returned {A} a.
Arguments Raised {A} e.

(** ** Documents (the shapes of [schemas.py]) *)

Module Outcome.
Record t : Type := { name : string; odds : float }.
End Outcome.

Module Event.
Record t : Type := {
  title : string;
  category : string;
  start_time : Z;
  status : string;
  outcomes : list Outcome.t;
  result : option string
}.
End Event.

Module Bettor.
(** [balance] is read with [bettor.get("balance", 1000.0)]: a stored
    document may lack the field. *)
Record t : Type := { display_name : string; balance : option float }.
End Bettor.

Module Bet.
(** [amount] and [odds_at_bet] are read with [b.get(_, 0)] at
    settlement: a stored document may lack them. *)
Record t : Type := {
  user_id : string;
  event_id : string;
  outcome : string;
  amount : option float;
  odds_at_bet : option float;
  status : string;
  potential_payout : float;
  settled_payout : option float
}.

(** The arguments [place_bet] gives to the [Bet] constructor. *)
Record args : Type := {
  a_user_id : string;
  a_event_id : string;
  a_outcome : string;
  a_amount : float;
  a_odds_at_bet : float;
  a_potential_payout : float
}.

(** A field declared [Field(..., gt=bound)] accepts [v] when [v > bound]
    holds; NaN satisfies no comparison. *)
Definition gt (bound v : float) : bool := PrimFloat.ltb bound v.

(** The fields of [Bet] whose constraint rejects the arguments, in the
    order of declaration: [amount] is [gt=0], [odds_at_bet] is [gt=1.0],
    [potential_payout] is [gt=0]. *)
Definition violations (a : args) : list string :=
  (if gt 0 (a_amount a) then [] else ["amount"])
  ++ (if gt 1 (a_odds_at_bet a) then [] else ["odds_at_bet"])
  ++ (if gt 0 (a_potential_payout a) then [] else ["potential_payout"]).

(** [Bet(...)]: pydantic validates the arguments and fills the defaults
    [status = "pending"] and [settled_payout = None]. *)
Definition make (a : args) : Completion t :=
  match violations a with
  | [] => Returned {| user_id := a_user_id a;
                      event_id := a_event_id a;
                      outcome := a_outcome a;
                      amount := Some (a_amount a);
                      odds_at_bet := Some (a_odds_at_bet a);
                      status := "pending";
                      potential_payout := a_potential_payout a;
                      settled_payout := None |}
  | fields => Raised (ValidationError "Bet" fields)
  end.
End Bet.

(** ** The store: the collections [event], [bettor] and [bet] *)

Module DB.
Record t : Type := {
  event : gmap string Event.t;
  bettor : gmap string Bettor.t;
  bet : gmap string Bet.t
}.
End DB.

(** A handler runs against the store and ends by returning or raising;
    the writes made before an exception stay in the store. *)
Definition Handler (A : Type) : Type := DB.t -> Completion A * DB.t.

Definition ret {A} (a : A) : Handler A := fun d => (Returned a, d).
Definition raise {A} (e : Exception) : Handler A := fun d => (Raised e, d).
Definition bind {A B} (m : Handler A) (k : A -> Handler B) : Handler B :=
  fun d =>
    match m d with
    | (Returned a, d') => k a d'
    | (Raised e, d') => (Raised e, d')
    end.
Definition gets {A} (f : DB.t -> A) : Handler A := fun d => (Returned (f d), d).
Definition modify (f : DB.t -> DB.t) : Handler unit := fun d => (Returned tt, f d).
Definition lift {A} (c : Completion A) : Handler A := fun d => (c, d).

Declare Scope handler_scope.
Delimit Scope handler_scope with handler.
Notation "x <- m ;; k" := (bind m (fun x => k))
  (at level 100, m at next level, right associativity) : handler_scope.
Notation "m ;; k" := (bind m (fun _ => k))
  (at level 100, right associativity) : handler_scope.
Local Open Scope handler_scope.

(** [if cond: raise e] *)
Definition raise_if (cond : bool) (e : Exception) : Handler unit :=
  if cond then raise e else ret tt.

(** [if not x: raise e] for the result of a [find_one] or of a search. *)
Definition raise_if_not {A} (x : option A) (e : Exception) : Handler A :=
  match x with
  | Some a => ret a
  | None => raise e
  end.

(** [for x in l: body(x)] *)
Fixpoint for_each {A} (l : list A) (body : A -> Handler unit) : Handler unit :=
  match l with
  | [] => ret tt
  | x :: l' => body x ;; for_each l' body
  end.

(** [if db is None: raise HTTPException(503, ...)], then the body. *)
Definition with_db {A} (db : option DB.t) (h : Handler A)
  : Completion A * option DB.t :=
  match db with
  | None => (Raised (HTTPException 503 "Database not configured"), None)
  | Some d => let '(r, d') := h d in (r, Some d')
  end.

(** [oid] of [main.py]. *)
Definition oid (val : string) : Completion ObjectId :=
  if ObjectId_is_valid val then Returned (str_map lower_hex val)
  else Raised (HTTPException 400 "Invalid ID format").

(** [str(x)] of an identifier. *)
Definition str (x : ObjectId) : string := x.

(** ** MongoDB operations used by the handlers *)

(** [{"$inc": {field: delta}}]: adds [delta] to the field; a document
    without the field gets it, set to [delta]. *)
Definition inc (delta : float) (field : option float) : option float :=
  match field with
  | Some v => Some (v + delta)%float
  | None => Some delta
  end.

Definition inc_balance (delta : float) (b : Bettor.t) : Bettor.t :=
  {| Bettor.display_name := Bettor.display_name b;
     Bettor.balance := inc delta (Bettor.balance b) |}.

(** [{"$set": {"status": status, "result": result}}] on an event. *)
Definition set_event_result (status result : string) (e : Event.t) : Event.t :=
  {| Event.title := Event.title e;
     Event.category := Event.category e;
     Event.start_time := Event.start_time e;
     Event.status := status;
     Event.outcomes := Event.outcomes e;
     Event.result := Some result |}.

(** [{"$set": {"status": status, "settled_payout": payout}}] on a bet. *)
Definition set_bet_settlement (status : string) (payout : float) (b : Bet.t)
  : Bet.t :=
  {| Bet.user_id := Bet.user_id b;
     Bet.event_id := Bet.event_id b;
     Bet.outcome := Bet.outcome b;
     Bet.amount := Bet.amount b;
     Bet.odds_at_bet := Bet.odds_at_bet b;
     Bet.status := status;
     Bet.potential_payout := Bet.potential_payout b;
     Bet.settled_payout := Some payout |}.

(** [db[c].find_one({"_id": i})] *)
Definition find_one_bettor (i : ObjectId) : Handler (option Bettor.t) :=
  gets (fun d => DB.bettor d !! i).
Definition find_one_event (i : ObjectId) : Handler (option Event.t) :=
  gets (fun d => DB.event d !! i).

(** [db[c].update_one({"_id": i}, u)]: the document with that identifier is
    updated, if there is one. *)
Definition update_one_event (i : ObjectId) (u : Event.t -> Event.t) : Handler unit :=
  modify (fun d => {| DB.event := alter u i (DB.event d);
                      DB.bettor := DB.bettor d;
                      DB.bet := DB.bet d |}).
Definition update_one_bettor (i : ObjectId) (u : Bettor.t -> Bettor.t) : Handler unit :=
  modify (fun d => {| DB.event := DB.event d;
                      DB.bettor := alter u i (DB.bettor d);
                      DB.bet := DB.bet d |}).
Definition update_one_bet (i : ObjectId) (u : Bet.t -> Bet.t) : Handler unit :=
  modify (fun d => {| DB.event := DB.event d;
                      DB.bettor := DB.bettor d;
                      DB.bet := alter u i (DB.bet d) |}).

(** [list(db["bet"].find(q))]: the matching documents, each with its
    [_id], in the order the collection enumerates them. *)
Definition find_bets (q : Bet.t -> bool) : Handler (list (ObjectId * Bet.t)) :=
  gets (fun d => List.filter (fun ib => q (snd ib)) (map_to_list (DB.bet d))).

(** [db["bet"].update_many(q, u)] *)
Definition update_many_bets (q : Bet.t -> bool) (u : Bet.t -> Bet.t) : Handler unit :=
  modify (fun d => {| DB.event := DB.event d;
                      DB.bettor := DB.bettor d;
                      DB.bet := (fun b => if q b then u b else b) <$> DB.bet d |}).

(** Modelled from the spec: [create_document] of [database.py], a file of
    the repository that is not among the sources.  The spec's ledger store
    has [insertBet(bet) -> Id]: the bet is stored as a new document and its
    identifier is returned as text.  The identifier is the one the driver
    generates for the insertion, [inserted_id]. *)
Definition create_document_bet (inserted_id : ObjectId) (data : Bet.t)
  : Handler string :=
  modify (fun d => {| DB.event := DB.event d;
                      DB.bettor := DB.bettor d;
                      DB.bet := <[inserted_id := data]> (DB.bet d) |}) ;;
  ret (str inserted_id).

(** ** The handlers of [main.py] *)

Module PlaceBet.
Record t : Type := {
  bettor_id : string;
  event_id : string;
  outcome : string;
  amount : float
}.
End PlaceBet.

Module PlaceBetResponse.
Record t : Type := { id : string; potential_payout : float }.
End PlaceBetResponse.

Definition place_bet (db : option DB.t) (inserted_id : ObjectId)
    (payload : PlaceBet.t) : Completion PlaceBetResponse.t * option DB.t :=
  with_db db (
    bettor_id <- lift (oid (PlaceBet.bettor_id payload)) ;;
    bettor <- find_one_bettor bettor_id ;;
    bettor <- raise_if_not bettor (HTTPException 404 "Bettor not found") ;;
    event_id <- lift (oid (PlaceBet.event_id payload)) ;;
    event <- find_one_event event_id ;;
    event <- raise_if_not event (HTTPException 404 "Event not found") ;;
    raise_if (negb (String.eqb (Event.status event) "open"))
      (HTTPException 400 "Event not open for betting") ;;
    chosen <- raise_if_not
      (List.find (fun o => String.eqb (Outcome.name o) (PlaceBet.outcome payload))
                 (Event.outcomes event))
      (HTTPException 400 "Invalid outcome for this event") ;;
    let amount := PlaceBet.amount payload in
    raise_if (amount <=? 0)%float (HTTPException 400 "Invalid bet amount") ;;
    let balance := default 1000%float (Bettor.balance bettor) in
    raise_if (balance <? amount)%float (HTTPException 400 "Insufficient balance") ;;
    let potential := round2 (amount * Outcome.odds chosen) in
    bet <- lift (Bet.make {| Bet.a_user_id := str bettor_id;
                             Bet.a_event_id := str event_id;
                             Bet.a_outcome := PlaceBet.outcome payload;
                             Bet.a_amount := amount;
                             Bet.a_odds_at_bet := Outcome.odds chosen;
                             Bet.a_potential_payout := potential |}) ;;
    bet_id <- create_document_bet inserted_id bet ;;
    update_one_bettor bettor_id (inc_balance (- amount)) ;;
    ret {| PlaceBetResponse.id := bet_id;
           PlaceBetResponse.potential_payout := potential |}).

Module SettleEvent.
Record t : Type := { event_id : string; result : string }.
End SettleEvent.

Module SettleEventResponse.
Record t : Type := { status : string }.
End SettleEventResponse.

(** [float(b.get(field, 0))] *)
Definition get_float (field : option float) : float := default 0%float field.

(** The payout of a winning bet, as the settlement loop computes it. *)
Definition payout_of (b : Bet.t) : float :=
  round2 (get_float (Bet.amount b) * get_float (Bet.odds_at_bet b)).

(** The two queries of [settle_event] on the [bet] collection. *)
Definition is_winning (event_id result : string) (b : Bet.t) : bool :=
  String.eqb (Bet.event_id b) event_id && String.eqb (Bet.outcome b) result.
Definition is_losing (event_id result : string) (b : Bet.t) : bool :=
  String.eqb (Bet.event_id b) event_id && negb (String.eqb (Bet.outcome b) result).

(** The body of the loop over the winning bets: [b] is a document of the
    list, with its [_id]. *)
Definition pay_out (b : ObjectId * Bet.t) : Handler unit :=
  let payout := payout_of (snd b) in
  update_one_bet (fst b) (set_bet_settlement "won" payout) ;;
  user <- lift (oid (Bet.user_id (snd b))) ;;
  update_one_bettor user (inc_balance payout).

Definition settle_event (db : option DB.t) (payload : SettleEvent.t)
  : Completion SettleEventResponse.t * option DB.t :=
  with_db db (
    event_id <- lift (oid (SettleEvent.event_id payload)) ;;
    ev <- find_one_event event_id ;;
    ev <- raise_if_not ev (HTTPException 404 "Event not found") ;;
    let result := SettleEvent.result payload in
    raise_if (negb (existsb (fun o => String.eqb (Outcome.name o) result)
                            (Event.outcomes ev)))
      (HTTPException 400 "Result is not a valid outcome") ;;
    update_one_event event_id (set_event_result "settled" result) ;;
    winning_bets <- find_bets (is_winning (str event_id) result) ;;
    for_each winning_bets pay_out ;;
    update_many_bets (is_losing (str event_id) result)
      (set_bet_settlement "lost" 0) ;;
    ret {| SettleEventResponse.status := "settled" |}).

(** ** The preconditions of the operations, as the spec lists them

    The preconditions are stated on identifiers that are already resolved
    (well-formed), the spec leaving the shape of the request to the HTTP
    layer.  The two amount conditions are decided by the binary64
    comparisons: an amount is non-positive when [amount <= 0] holds and
    exceeds the balance when [amount > balance] holds; NaN satisfies
    neither. *)

Module Placement.

Section Preconditions.
Variable d : DB.t.
Variables bettor_id event_id : ObjectId.
Variable outcome : string.
Variable amount : float.

(** 1. the bettor exists *)
Definition bettor_exists : bool :=
  match DB.bettor d !! bettor_id with Some _ => true | None => false end.

(** 2. the event exists *)
Definition event_exists : bool :=
  match DB.event d !! event_id with Some _ => true | None => false end.

(** 3. the event is open *)
Definition event_open : bool :=
  match DB.event d !! event_id with
  | Some ev => String.eqb (Event.status ev) "open"
  | None => false
  end.

(** 4. the outcome name is the name of one of the event's outcomes *)
Definition outcome_matches : bool :=
  match DB.event d !! event_id with
  | Some ev => existsb (fun o => String.eqb (Outcome.name o) outcome)
                       (Event.outcomes ev)
  | None => false
  end.

(** 5. the amount is positive *)
Definition amount_positive : bool := negb (amount <=? 0)%float.

(** The balance of a bettor: the stored one, 1000.0 when the document
    stores none. *)
Definition balance_or_default (b : Bettor.t) : float :=
  default 1000%float (Bettor.balance b).

(** 6. the amount does not exceed the bettor's balance *)
Definition amount_covered : bool :=
  match DB.bettor d !! bettor_id with
  | Some b => negb (balance_or_default b <? amount)%float
  | None => false
  end.

Definition all_hold : bool :=
  bettor_exists && event_exists && event_open && outcome_matches
  && amount_positive && amount_covered.

(** The error of the first precondition, in the order 1 to 6, that does not
    hold: NotFound for the bettor and for the event, InvalidState for an
    event that is not open, InvalidArgument for the other three. *)
Definition first_violation : option Exception :=
  if negb bettor_exists then Some (HTTPException 404 "Bettor not found")
  else if negb event_exists then Some (HTTPException 404 "Event not found")
  else if negb event_open
       then Some (HTTPException 400 "Event not open for betting")
  else if negb outcome_matches
       then Some (HTTPException 400 "Invalid outcome for this event")
  else if negb amount_positive then Some (HTTPException 400 "Invalid bet amount")
  else if negb amount_covered then Some (HTTPException 400 "Insufficient balance")
  else None.

End Preconditions.

End Placement.

Module Settlement.

Section Preconditions.
Variable d : DB.t.
Variable event_id : ObjectId.
Variable result : string.

(** 1. the event exists *)
Definition event_exists : bool :=
  match DB.event d !! event_id with Some _ => true | None => false end.

(** 2. the result is the name of one of the event's outcomes *)
Definition result_valid : bool :=
  match DB.event d !! event_id with
  | Some ev => existsb (fun o => String.eqb (Outcome.name o) result)
                       (Event.outcomes ev)
  | None => false
  end.

Definition all_hold : bool := event_exists && result_valid.

Definition first_violation : option Exception :=
  if negb event_exists then Some (HTTPException 404 "Event not found")
  else if negb result_valid
       then Some (HTTPException 400 "Result is not a valid outcome")
  else None.

(** ** What a settlement leaves in the store *)

(** The bettor a bet belongs to, when its [user_id] is an identifier. *)
Definition owner (b : Bet.t) : option ObjectId :=
  match oid (Bet.user_id b) with
  | Returned u => Some u
  | Raised _ => None
  end.

(** The winning bets, as the settlement loop enumerates them. *)
Definition winning_bets : list (ObjectId * Bet.t) :=
  List.filter (fun ib => is_winning event_id result (snd ib))
              (map_to_list (DB.bet d)).



(** A bet after the settlement. *)
Definition settled_bet (b : Bet.t) : Bet.t :=
  if is_winning event_id result b
  then set_bet_settlement "won" (payout_of b) b
  else if is_losing event_id result b
       then set_bet_settlement "lost" 0 b
       else b.

(** One bet marked as won by the settlement loop. *)
Definition mark_won (m : gmap string Bet.t) (ib : ObjectId * Bet.t)
  : gmap string Bet.t :=
  alter (set_bet_settlement "won" (payout_of (snd ib))) (fst ib) m.

(** The losing bets marked as lost, all at once. *)
Definition mark_lost (b : Bet.t) : Bet.t :=
  if is_losing event_id result b then set_bet_settlement "lost" 0 b else b.


(** One credit of the settlement loop. *)
Definition credit (m : gmap string Bettor.t) (ib : ObjectId * Bet.t)
  : gmap string Bettor.t :=
  match owner (snd ib) with
  | Some u => alter (inc_balance (payout_of (snd ib))) u m
  | None => m
  end.

(** Every winning bet names a bettor by a well-formed identifier. *)
Definition owners_resolve : bool :=
  forallb (fun ib => match owner (snd ib) with Some _ => true | None => false end)
          winning_bets.

(** The store after a settlement that ran to its end. *)
Definition settled : DB.t :=
  {| DB.event := alter (set_event_result "settled" result) event_id (DB.event d);
     DB.bettor := fold_left credit winning_bets (DB.bettor d);
     DB.bet := settled_bet <$> DB.bet d |}.

End Preconditions.

End Settlement.

(** A hypothetical change of the odds of an event: its outcomes are
    replaced by [outs].  No handler does this; it serves to state that a
    bet keeps the odds it was placed at. *)
Definition set_outcomes (outs : list Outcome.t) (e : Event.t) : Event.t :=
  {| Event.title := Event.title e;
     Event.category := Event.category e;
     Event.start_time := Event.start_time e;
     Event.status := Event.status e;
     Event.outcomes := outs;
     Event.result := Event.result e |}.

Definition reprice (event_id : ObjectId) (outs : list Outcome.t) (d : DB.t) : DB.t :=
  {| DB.event := alter (set_outcomes outs) event_id (DB.event d);
     DB.bettor := DB.bettor d;
     DB.bet := DB.bet d |}.



(** Every stored bet names its bettor by a well-formed identifier, as the
    bets that [place_bet] stores do. *)
Definition bets_name_bettors (d : DB.t) : Prop :=
  forall i b, DB.bet d !! i = Some b -> is_Some (Settlement.owner b).

(** The stored balance of a bettor, when the bettor and the field exist. *)
Definition balance_of (db : option DB.t) (i : ObjectId) : option float :=
  d ← db; b ← DB.bettor d !! i; Bettor.balance b.

Definition bet_of (db : option DB.t) (i : ObjectId) : option Bet.t :=
  d ← db; DB.bet d !! i.

(** ** The seeded event and two bettors

    The first event of [seed_events], a bettor holding the starting
    balance of 1000 and a second bettor; the decimal literals denote the
    nearest floats, as they do in Python. *)

Module Scenario.

#[local] Set Warnings "-inexact-float".

Definition event_id : ObjectId := "65a1f0c2b3d4e5f607182930".
Definition red_fan : ObjectId := "65a1f0c2b3d4e5f607182931".
Definition draw_fan : ObjectId := "65a1f0c2b3d4e5f607182932".
Definition newcomer : ObjectId := "65a1f0c2b3d4e5f607182933".
Definition bet_1 : ObjectId := "65a1f0c2b3d4e5f607182941".
Definition bet_2 : ObjectId := "65a1f0c2b3d4e5f607182942".

Definition red_vs_blue : Event.t :=
  {| Event.title := "Team Red vs Team Blue";
     Event.category := "Soccer";
     Event.start_time := 0;
     Event.status := "open";
     Event.outcomes := [ {| Outcome.name := "Team Red"; Outcome.odds := 1.9 |};
                         {| Outcome.name := "Draw"; Outcome.odds := 3.2 |};
                         {| Outcome.name := "Team Blue"; Outcome.odds := 2.1 |} ];
     Event.result := None |}.

Definition db0 : DB.t :=
  {| DB.event := {[ event_id := red_vs_blue ]};
     DB.bettor :=
       {[ red_fan := {| Bettor.display_name := "Red fan";
                        Bettor.balance := Some 1000%float |};
          draw_fan := {| Bettor.display_name := "Draw fan";
                         Bettor.balance := Some 1000%float |};
          newcomer := {| Bettor.display_name := "Newcomer";
                         Bettor.balance := None |} ]};
     DB.bet := ∅ |}.

Definition bet_on_red : PlaceBet.t :=
  {| PlaceBet.bettor_id := red_fan;
     PlaceBet.event_id := event_id;
     PlaceBet.outcome := "Team Red";
     PlaceBet.amount := 100 |}.

Definition bet_on_draw : PlaceBet.t :=
  {| PlaceBet.bettor_id := draw_fan;
     PlaceBet.event_id := event_id;
     PlaceBet.outcome := "Draw";
     PlaceBet.amount := 50 |}.

Definition red_wins : SettleEvent.t :=
  {| SettleEvent.event_id := event_id; SettleEvent.result := "Team Red" |}.


(** A bet of the bettor whose document stores no balance. *)
Definition newcomer_bet (amount : float) : PlaceBet.t :=
  {| PlaceBet.bettor_id := newcomer;
     PlaceBet.event_id := event_id;
     PlaceBet.outcome := "Team Blue";
     PlaceBet.amount := amount |}.

(** The store after the bet on Team Red. *)
Definition db1 : option DB.t := snd (place_bet (Some db0) bet_1 bet_on_red).

(** The store after that bet has been settled with Team Red winning. *)
Definition db2 : option DB.t := snd (settle_event db1 red_wins).

(** The store after the bet on Team Red and then the bet on Draw. *)
Definition db_both : DB.t :=
  default db0 (db ← db1; snd (place_bet (Some db) bet_2 bet_on_draw)).

(** Team Red at new odds, the other outcomes as they were. *)
Definition new_odds : list Outcome.t :=
  [ {| Outcome.name := "Team Red"; Outcome.odds := 5 |};
    {| Outcome.name := "Draw"; Outcome.odds := 3.2 |};
    {| Outcome.name := "Team Blue"; Outcome.odds := 2.1 |} ].

(** The store after both bets have been settled with Team Red winning. *)
Definition db_settled : DB.t :=
  default db0 (snd (settle_event (Some db_both) red_wins)).

(** The store after the bet on Team Red, with the odds replaced. *)
Definition db_repriced : DB.t := reprice event_id new_odds (default db0 db1).

(** That store after a settlement with Team Red winning. *)
Definition db_repriced_settled : DB.t :=
  default db0 (snd (settle_event (Some db_repriced) red_wins)).

(** A settlement whose result names no outcome of the event. *)
Definition nobody_wins : SettleEvent.t :=
  {| SettleEvent.event_id := event_id; SettleEvent.result := "Nobody" |}.

(** A stake above the balance of the bettor. *)
Definition overdraft_bet : PlaceBet.t :=
  {| PlaceBet.bettor_id := red_fan;
     PlaceBet.event_id := event_id;
     PlaceBet.outcome := "Team Red";
     PlaceBet.amount := 5000 |}.





(** The whole balance of the bettor on Team Blue. *)
Definition all_in : PlaceBet.t :=
  {| PlaceBet.bettor_id := red_fan;
     PlaceBet.event_id := event_id;
     PlaceBet.outcome := "Team Blue";
     PlaceBet.amount := 1000 |}.

(** An event with two outcomes of the same name. *)
Definition derby_id : ObjectId := "65a1f0c2b3d4e5f607182950".

Definition derby : Event.t :=
  {| Event.title := "Derby";
     Event.category := "Soccer";
     Event.start_time := 5;
     Event.status := "open";
     Event.outcomes := [ {| Outcome.name := "Home"; Outcome.odds := 1.5 |};
                         {| Outcome.name := "Away"; Outcome.odds := 2.5 |};
                         {| Outcome.name := "Home"; Outcome.odds := 4 |} ];
     Event.result := None |}.

Definition db_derby : DB.t :=
  {| DB.event := <[derby_id := derby]> (DB.event db0);
     DB.bettor := DB.bettor db0;
     DB.bet := DB.bet db0 |}.

Definition bet_on_home : PlaceBet.t :=
  {| PlaceBet.bettor_id := red_fan;
     PlaceBet.event_id := derby_id;
     PlaceBet.outcome := "Home";
     PlaceBet.amount := 10 |}.

End Scenario.

(** ** The other handlers of [main.py] *)

(** [serialize]: the document without its [_id], with [id = str(_id)];
    a [datetime] value becomes its [isoformat()] text.  The only [datetime]
    of the documents modelled here is the [start_time] of an event, and
    [isoformat] is a parameter. *)

Module Serialized.
Record event : Type := {
  e_id : string;
  e_title : string;
  e_category : string;
  e_start_time : string;
  e_status : string;
  e_outcomes : list Outcome.t;
  e_result : option string
}.
Record bettor : Type := {
  b_id : string;
  b_display_name : string;
  b_balance : option float
}.
Record bet : Type := { t_id : string; t_fields : Bet.t }.
End Serialized.

Definition serialize_event (isoformat : Z -> string) (doc : ObjectId * Event.t)
  : Serialized.event :=
  {| Serialized.e_id := str (fst doc);
     Serialized.e_title := Event.title (snd doc);
     Serialized.e_category := Event.category (snd doc);
     Serialized.e_start_time := isoformat (Event.start_time (snd doc));
     Serialized.e_status := Event.status (snd doc);
     Serialized.e_outcomes := Event.outcomes (snd doc);
     Serialized.e_result := Event.result (snd doc) |}.

Definition serialize_bettor (doc : ObjectId * Bettor.t) : Serialized.bettor :=
  {| Serialized.b_id := str (fst doc);
     Serialized.b_display_name := Bettor.display_name (snd doc);
     Serialized.b_balance := Bettor.balance (snd doc) |}.

Definition serialize_bet (doc : ObjectId * Bet.t) : Serialized.bet :=
  {| Serialized.t_id := str (fst doc); Serialized.t_fields := snd doc |}.

#[local] Set Warnings "-inexact-float".

(** The documents of [seed_events]; [now] is the reading of the clock and
    the decimal literals denote the nearest floats. *)
Definition seed_documents (now : Z) : list Event.t :=
  [ {| Event.title := "Team Red vs Team Blue";
       Event.category := "Soccer";
       Event.start_time := now;
       Event.status := "open";
       Event.outcomes :=
         [ {| Outcome.name := "Team Red"; Outcome.odds := 1.9 |};
           {| Outcome.name := "Draw"; Outcome.odds := 3.2 |};
           {| Outcome.name := "Team Blue"; Outcome.odds := 2.1 |} ];
       Event.result := None |};
    {| Event.title := "Fighter A vs Fighter B";
       Event.category := "MMA";
       Event.start_time := now;
       Event.status := "open";
       Event.outcomes :=
         [ {| Outcome.name := "Fighter A"; Outcome.odds := 1.6 |};
           {| Outcome.name := "Fighter B"; Outcome.odds := 2.4 |} ];
       Event.result := None |} ].

(** [db["event"].insert_one(doc)]: the document is stored under the
    identifier the driver generates, [inserted_id]. *)
Definition insert_one_event (inserted_id : ObjectId) (doc : Event.t)
  : Handler ObjectId :=
  modify (fun d => {| DB.event := <[inserted_id := doc]> (DB.event d);
                      DB.bettor := DB.bettor d;
                      DB.bet := DB.bet d |}) ;;
  ret inserted_id.

(** The loop of [seed_events]: each document is inserted and the text of
    its identifier appended to [inserted_ids]. *)
Fixpoint insert_each (docs : list (ObjectId * Event.t)) (inserted_ids : list string)
  : Handler (list string) :=
  match docs with
  | [] => ret inserted_ids
  | doc :: docs' =>
      i <- insert_one_event (fst doc) (snd doc) ;;
      insert_each docs' (inserted_ids ++ [str i])
  end.

(** [seed_events]; [id1] and [id2] are the identifiers the driver
    generates for the two insertions. *)
Definition seed_events (db : option DB.t) (now : Z) (id1 id2 : ObjectId)
  : Completion (list string) * option DB.t :=
  with_db db (insert_each (combine [id1; id2] (seed_documents now)) []).

(** The order of [sort("start_time", 1)]. *)
Definition starts_before (x y : ObjectId * Event.t) : Prop :=
  Event.start_time (snd x) <= Event.start_time (snd y).

#[global] Instance starts_before_dec (x y : ObjectId * Event.t) :
  Decision (starts_before x y) := Z_le_dec _ _.

(** [list_events]: the events sorted by [start_time], the first 50 of
    them, serialized.  Events of equal [start_time] come in the order the
    sort leaves them in. *)
Definition list_events (db : option DB.t) (isoformat : Z -> string)
  : Completion (list Serialized.event) * option DB.t :=
  with_db db (
    docs <- gets (fun d => take 50 (merge_sort starts_before
                                      (map_to_list (DB.event d)))) ;;
    ret (List.map (serialize_event isoformat) docs)).

(** [get_bettor] *)
Definition get_bettor (db : option DB.t) (bettor_id : string)
  : Completion Serialized.bettor * option DB.t :=
  with_db db (
    i <- lift (oid bettor_id) ;;
    doc <- find_one_bettor i ;;
    doc <- raise_if_not doc (HTTPException 404 "Bettor not found") ;;
    ret (serialize_bettor (i, doc))).

(** [list_bets]: the bets whose [user_id] is the text of the request,
    newest first.  The documents of the model carry no [created_at]: the
    sort on it is the parameter [newest_first]. *)
Definition list_bets (db : option DB.t)
    (newest_first : list (ObjectId * Bet.t) -> list (ObjectId * Bet.t))
    (bettor_id : string)
  : Completion (list Serialized.bet) * option DB.t :=
  with_db db (
    bets <- find_bets (fun b => String.eqb (Bet.user_id b) bettor_id) ;;
    ret (List.map serialize_bet (newest_first bets))).

Module CreateBettor.
Record t : Type := { display_name : string }.
End CreateBettor.

(** Modelled from the spec: [create_document] of [database.py] on the
    [bettor] collection; the bettor is stored as a new document, under the
    identifier the driver generates, and the text of the identifier is
    returned. *)
Definition create_document_bettor (inserted_id : ObjectId) (data : Bettor.t)
  : Handler string :=
  modify (fun d => {| DB.event := DB.event d;
                      DB.bettor := <[inserted_id := data]> (DB.bettor d);
                      DB.bet := DB.bet d |}) ;;
  ret (str inserted_id).

(** [create_bettor]: [Bettor(display_name=...)] takes the default balance
    of the schema, 1000.0. *)
Definition create_bettor (db : option DB.t) (inserted_id : ObjectId)
    (payload : CreateBettor.t) : Completion string * option DB.t :=
  with_db db (
    let bettor := {| Bettor.display_name := CreateBettor.display_name payload;
                     Bettor.balance := Some 1000%float |} in
    new_id <- create_document_bettor inserted_id bettor ;;
    ret new_id).

(** ** Properties of stored bets *)

(** A bet as [place_bet] stores it: both numbers present and accepted by
    the schema, the potential payout computed from them and accepted too,
    and the bettor named by the text of an identifier. *)
Definition as_placed (b : Bet.t) : Prop :=
  exists a o,
    Bet.amount b = Some a /\ Bet.odds_at_bet b = Some o
    /\ (0 <? a)%float = true /\ (1 <? o)%float = true
    /\ Bet.potential_payout b = round2 (a * o)
    /\ (0 <? Bet.potential_payout b)%float = true
    /\ oid (Bet.user_id b) = Returned (Bet.user_id b)
    /\ oid (Bet.event_id b) = Returned (Bet.event_id b).

Definition bets_as_placed (d : DB.t) : Prop :=
  forall i b, DB.bet d !! i = Some b -> as_placed b.

(** What a settlement keeps of a bet: all fields except the status and the
    settled payout; and of a bettor: the name. *)
Definition same_stake (b b' : Bet.t) : Prop :=
  Bet.user_id b' = Bet.user_id b
  /\ Bet.event_id b' = Bet.event_id b
  /\ Bet.outcome b' = Bet.outcome b
  /\ Bet.amount b' = Bet.amount b
  /\ Bet.odds_at_bet b' = Bet.odds_at_bet b
  /\ Bet.potential_payout b' = Bet.potential_payout b.

Definition same_name (b b' : Bettor.t) : Prop :=
  Bettor.display_name b' = Bettor.display_name b.

(** The frame of a settlement of the event [eid]: no document appears or
    disappears, the other events and the bets on other events are the same
    documents, a bet keeps its stake and a bettor its name. *)
Definition settlement_frame (eid : ObjectId) (d d' : DB.t) : Prop :=
  (forall j, j <> eid -> DB.event d' !! j = DB.event d !! j)
  /\ (forall j, is_Some (DB.event d' !! j) <-> is_Some (DB.event d !! j))
  /\ (forall i, option_Forall2 same_stake (DB.bet d !! i) (DB.bet d' !! i))
  /\ (forall i b, DB.bet d !! i = Some b -> Bet.event_id b <> eid ->
                  DB.bet d' !! i = Some b)
  /\ (forall u, option_Forall2 same_name (DB.bettor d !! u) (DB.bettor d' !! u)).

(** * Properties *)

Arguments PyFloat.round2 : simpl never.
#[local] Set Warnings "-inexact-float".

(** ** [round(x, 2)] on some floats, as CPython rounds them *)

Example round2_ties_to_even : round2 0.125 = 0.12%float.
Proof. vm_compute. reflexivity. Qed.

Example round2_exact_binary_value : round2 2.675 = 2.67%float.
Proof. vm_compute. reflexivity. Qed.

Example round2_small : round2 (0.001 * 1.9) = 0%float.
Proof. vm_compute. reflexivity. Qed.

Example round2_nan : round2 nan = nan.
Proof. vm_compute. reflexivity. Qed.

(** ** Lists *)

Lemma find_existsb {A} (p : A -> bool) (l : list A) :
  existsb p l = match List.find p l with Some _ => true | None => false end.
Proof.
  induction l as [|a l IH]; simpl; [reflexivity|].
  destruct (p a); simpl; [reflexivity | exact IH].
Qed.

(** ** [place_bet], one decision after the other *)

Lemma place_bet_unfold (d : DB.t) (inserted_id : ObjectId) (payload : PlaceBet.t) :
  place_bet (Some d) inserted_id payload =
  match oid (PlaceBet.bettor_id payload) with
  | Raised e => (Raised e, Some d)
  | Returned bettor_id =>
  match DB.bettor d !! bettor_id with
  | None => (Raised (HTTPException 404 "Bettor not found"), Some d)
  | Some bettor =>
  match oid (PlaceBet.event_id payload) with
  | Raised e => (Raised e, Some d)
  | Returned event_id =>
  match DB.event d !! event_id with
  | None => (Raised (HTTPException 404 "Event not found"), Some d)
  | Some event =>
  if negb (String.eqb (Event.status event) "open")
  then (Raised (HTTPException 400 "Event not open for betting"), Some d)
  else
  match List.find (fun o => String.eqb (Outcome.name o) (PlaceBet.outcome payload))
                  (Event.outcomes event) with
  | None => (Raised (HTTPException 400 "Invalid outcome for this event"), Some d)
  | Some chosen =>
  let amount := PlaceBet.amount payload in
  if (amount <=? 0)%float
  then (Raised (HTTPException 400 "Invalid bet amount"), Some d)
  else
  if (Placement.balance_or_default bettor <? amount)%float
  then (Raised (HTTPException 400 "Insufficient balance"), Some d)
  else
  let potential := round2 (amount * Outcome.odds chosen) in
  match Bet.make {| Bet.a_user_id := bettor_id;
                    Bet.a_event_id := event_id;
                    Bet.a_outcome := PlaceBet.outcome payload;
                    Bet.a_amount := amount;
                    Bet.a_odds_at_bet := Outcome.odds chosen;
                    Bet.a_potential_payout := potential |} with
  | Raised e => (Raised e, Some d)
  | Returned bet =>
      (Returned {| PlaceBetResponse.id := inserted_id;
                   PlaceBetResponse.potential_payout := potential |},
       Some {| DB.event := DB.event d;
               DB.bettor := alter (inc_balance (- amount)) bettor_id (DB.bettor d);
               DB.bet := <[inserted_id := bet]> (DB.bet d) |})
  end end end end end end.
Proof.
  unfold place_bet, with_db, bind, lift, find_one_bettor, find_one_event, gets,
    raise_if_not, raise_if, raise, ret, create_document_bet, update_one_bettor,
    modify, str, Placement.balance_or_default.
  destruct (oid (PlaceBet.bettor_id payload)) as [bid|e]; [|reflexivity].
  destruct (DB.bettor d !! bid) as [bettor|]; [|reflexivity].
  destruct (oid (PlaceBet.event_id payload)) as [eid|e]; [|reflexivity].
  destruct (DB.event d !! eid) as [event|]; [|reflexivity].
  destruct (negb (String.eqb (Event.status event) "open")); [reflexivity|].
  destruct (List.find _ (Event.outcomes event)) as [chosen|]; [|reflexivity].
  cbv zeta.
  destruct (PlaceBet.amount payload <=? 0)%float; [reflexivity|].
  destruct (default 1000%float (Bettor.balance bettor) <? PlaceBet.amount payload)%float;
    [reflexivity|].
  destruct (Bet.make _) as [bet|e]; reflexivity.
Qed.

Lemma NoDup_fst_filter {A B} (p : A * B -> bool) (l : list (A * B)) :
  NoDup (l.*1) -> NoDup ((List.filter p l).*1).
Proof.
  induction l as [|x l IH]; simpl; [done|].
  intros Hnd. apply NoDup_cons in Hnd as [Hx Hl].
  destruct (p x); simpl; [|by apply IH].
  apply NoDup_cons. split; [|by apply IH].
  intros Hin. apply Hx.
  apply list_elem_of_fmap in Hin as (y & -> & Hy).
  apply list_elem_of_fmap. exists y. split; [done|].
  apply list_elem_of_In in Hy. apply filter_In in Hy as [Hy _].
  by apply list_elem_of_In.
Qed.

Lemma elem_of_filter_bool {A} (p : A -> bool) (l : list A) (x : A) :
  x ∈ List.filter p l <-> x ∈ l /\ p x = true.
Proof. rewrite !list_elem_of_In. apply filter_In. Qed.

(** ** The settlement loop *)

Lemma pay_out_run (ib : ObjectId * Bet.t) (u : ObjectId) (d : DB.t) :
  Settlement.owner (snd ib) = Some u ->
  pay_out ib d =
  (Returned tt, {| DB.event := DB.event d;
                   DB.bettor := Settlement.credit (DB.bettor d) ib;
                   DB.bet := Settlement.mark_won (DB.bet d) ib |}).
Proof.
  unfold Settlement.owner, Settlement.credit, Settlement.owner, pay_out, bind,
    lift, update_one_bet, update_one_bettor, modify.
  simpl. destruct (oid (Bet.user_id ib.2)) as [u'|e]; [|done].
  intros [= ->]. reflexivity.
Qed.

Lemma pay_out_raise (ib : ObjectId * Bet.t) (d : DB.t) :
  Settlement.owner (snd ib) = None ->
  exists e d', pay_out ib d = (Raised e, d').
Proof.
  unfold Settlement.owner, pay_out, bind, lift, update_one_bet, modify. simpl.
  destruct (oid (Bet.user_id ib.2)) as [u'|e]; [done|]. eauto.
Qed.

Lemma for_each_pay_out (l : list (ObjectId * Bet.t)) (d : DB.t) :
  Forall (fun ib => is_Some (Settlement.owner (snd ib))) l ->
  for_each l pay_out d =
  (Returned tt, {| DB.event := DB.event d;
                   DB.bettor := fold_left Settlement.credit l (DB.bettor d);
                   DB.bet := fold_left Settlement.mark_won l (DB.bet d) |}).
Proof.
  revert d. induction l as [|ib l IH]; intros d Hall; simpl.
  - unfold ret. by destruct d.
  - apply Forall_cons in Hall as [[u Hu] Hall].
    unfold bind at 1. rewrite (pay_out_run ib u d Hu).
    rewrite IH by done. reflexivity.
Qed.

Lemma for_each_pay_out_returned (l : list (ObjectId * Bet.t)) (d d' : DB.t) r :
  for_each l pay_out d = (Returned r, d') ->
  Forall (fun ib => is_Some (Settlement.owner (snd ib))) l.
Proof.
  revert d. induction l as [|ib l IH]; intros d Hrun; [by constructor|].
  simpl in Hrun. unfold bind at 1 in Hrun.
  destruct (Settlement.owner (snd ib)) as [u|] eqn:Hu.
  - rewrite (pay_out_run ib u d Hu) in Hrun.
    constructor; [by rewrite Hu|]. by eapply IH.
  - destruct (pay_out_raise ib d Hu) as (e & d'' & Hr).
    rewrite Hr in Hrun. discriminate.
Qed.

(** ** The bets after the loop and the update of the losing bets *)

Lemma lookup_mark_won_notin (l : list (ObjectId * Bet.t)) (m : gmap string Bet.t)
    (j : ObjectId) :
  j ∉ l.*1 -> fold_left Settlement.mark_won l m !! j = m !! j.
Proof.
  revert m. induction l as [|[i b] l IH]; intros m Hj; simpl; [done|].
  simpl in Hj. apply not_elem_of_cons in Hj as [Hne Hj].
  rewrite IH by done. unfold Settlement.mark_won. simpl.
  by rewrite lookup_alter_ne.
Qed.

Lemma lookup_mark_won_in (l : list (ObjectId * Bet.t)) (m : gmap string Bet.t)
    (j : ObjectId) (b : Bet.t) :
  NoDup (l.*1) -> (j, b) ∈ l ->
  fold_left Settlement.mark_won l m !! j
  = set_bet_settlement "won" (payout_of b) <$> m !! j.
Proof.
  revert m. induction l as [|[i b0] l IH]; intros m Hnd Hin; simpl.
  - by apply elem_of_nil in Hin.
  - simpl in Hnd. apply NoDup_cons in Hnd as [Hi Hnd].
    apply elem_of_cons in Hin as [[= <- <-]|Hin].
    + rewrite lookup_mark_won_notin by done.
      unfold Settlement.mark_won. simpl. by rewrite lookup_alter_eq.
    + assert (i <> j) as Hne.
      { intros ->. apply Hi. apply list_elem_of_fmap. by exists (j, b). }
      rewrite IH by done. unfold Settlement.mark_won. simpl.
      by rewrite lookup_alter_ne.
Qed.

Lemma is_winning_not_losing (eid result : string) (b : Bet.t) (p : float) :
  is_winning eid result b = true ->
  is_losing eid result (set_bet_settlement "won" p b) = false.
Proof.
  unfold is_winning, is_losing. simpl.
  intros [_ ->]%andb_true_iff. apply andb_false_r.
Qed.

Lemma settled_bets (d : DB.t) (eid result : string) :
  Settlement.mark_lost eid result
    <$> fold_left Settlement.mark_won (Settlement.winning_bets d eid result) (DB.bet d)
  = Settlement.settled_bet eid result <$> DB.bet d.
Proof.
  pose proof (NoDup_fst_filter (fun ib => is_winning eid result (snd ib)) _
                (NoDup_fst_map_to_list (DB.bet d))) as Hnd.
  fold (Settlement.winning_bets d eid result) in Hnd.
  assert (forall j b, (j, b) ∈ Settlement.winning_bets d eid result
                      <-> DB.bet d !! j = Some b /\ is_winning eid result b = true)
    as Hin.
  { intros j b. unfold Settlement.winning_bets.
    rewrite elem_of_filter_bool, elem_of_map_to_list. done. }
  apply map_eq. intros j. rewrite !lookup_fmap.
  destruct (DB.bet d !! j) as [b|] eqn:Hb.
  - destruct (is_winning eid result b) eqn:Hw.
    + rewrite (lookup_mark_won_in _ _ j b) by (done || by apply Hin).
      rewrite Hb. simpl. unfold Settlement.mark_lost, Settlement.settled_bet.
      by rewrite Hw, is_winning_not_losing.
    + rewrite lookup_mark_won_notin.
      * rewrite Hb. simpl. unfold Settlement.mark_lost, Settlement.settled_bet.
        by rewrite Hw.
      * intros ([j' b'] & Hj & Hel)%list_elem_of_fmap. simpl in Hj. subst j'.
        apply Hin in Hel as [Hb' Hw']. congruence.
  - rewrite lookup_mark_won_notin; [by rewrite Hb|].
    intros ([j' b'] & Hj & Hel)%list_elem_of_fmap. simpl in Hj. subst j'.
    apply Hin in Hel as [Hb' _]. congruence.
Qed.

(** ** The bettors after the loop *)




(** ** [settle_event], one decision after the other *)

Lemma settle_event_unfold (d : DB.t) (payload : SettleEvent.t) :
  settle_event (Some d) payload =
  match oid (SettleEvent.event_id payload) with
  | Raised e => (Raised e, Some d)
  | Returned event_id =>
  match DB.event d !! event_id with
  | None => (Raised (HTTPException 404 "Event not found"), Some d)
  | Some ev =>
  let result := SettleEvent.result payload in
  if negb (existsb (fun o => String.eqb (Outcome.name o) result) (Event.outcomes ev))
  then (Raised (HTTPException 400 "Result is not a valid outcome"), Some d)
  else
  match for_each (Settlement.winning_bets d event_id result) pay_out
          {| DB.event := alter (set_event_result "settled" result) event_id (DB.event d);
             DB.bettor := DB.bettor d;
             DB.bet := DB.bet d |} with
  | (Returned _, d') =>
      (Returned {| SettleEventResponse.status := "settled" |},
       Some {| DB.event := DB.event d';
               DB.bettor := DB.bettor d';
               DB.bet := Settlement.mark_lost event_id result <$> DB.bet d' |})
  | (Raised e, d') => (Raised e, Some d')
  end end end.
Proof.
  unfold settle_event, with_db, bind at 1, lift.
  destruct (oid (SettleEvent.event_id payload)) as [eid|e]; [|reflexivity].
  unfold bind at 1, find_one_event, gets.
  unfold bind at 1, raise_if_not.
  destruct (DB.event d !! eid) as [ev|]; [|reflexivity].
  unfold ret at 1. cbv zeta.
  unfold bind at 1, raise_if.
  destruct (negb (existsb _ (Event.outcomes ev))); [reflexivity|].
  unfold ret at 1.
  unfold bind at 1, update_one_event, modify.
  unfold bind at 1, find_bets, gets. simpl.
  unfold bind at 1, str.
  unfold Settlement.winning_bets.
  destruct (for_each _ pay_out _) as [[r|e] d']; [|reflexivity].
  reflexivity.
Qed.

Lemma owners_resolve_Forall (d : DB.t) (eid result : string) :
  Settlement.owners_resolve d eid result = true <->
  Forall (fun ib => is_Some (Settlement.owner (snd ib)))
         (Settlement.winning_bets d eid result).
Proof.
  unfold Settlement.owners_resolve. rewrite forallb_forall, Forall_forall.
  split; intros H ib Hin.
  - apply list_elem_of_In, H in Hin. by destruct (Settlement.owner ib.2).
  - apply list_elem_of_In, H in Hin. by destruct Hin as [u ->].
Qed.

Lemma settle_event_run (d : DB.t) (payload : SettleEvent.t) (eid : ObjectId) :
  oid (SettleEvent.event_id payload) = Returned eid ->
  Settlement.all_hold d eid (SettleEvent.result payload) = true ->
  Settlement.owners_resolve d eid (SettleEvent.result payload) = true ->
  settle_event (Some d) payload
  = (Returned {| SettleEventResponse.status := "settled" |},
     Some (Settlement.settled d eid (SettleEvent.result payload))).
Proof.
  intros Hoid Hpre Hown. rewrite settle_event_unfold, Hoid.
  unfold Settlement.all_hold, Settlement.event_exists, Settlement.result_valid in Hpre.
  destruct (DB.event d !! eid) as [ev|]; [|done]. simpl in Hpre.
  cbv zeta. rewrite Hpre. simpl negb. cbv iota.
  apply owners_resolve_Forall in Hown.
  rewrite for_each_pay_out by done. simpl.
  unfold Settlement.settled. by rewrite settled_bets.
Qed.

Lemma settle_event_returned (d : DB.t) (payload : SettleEvent.t) r o :
  settle_event (Some d) payload = (Returned r, o) ->
  exists eid,
    oid (SettleEvent.event_id payload) = Returned eid
    /\ Settlement.all_hold d eid (SettleEvent.result payload) = true
    /\ Settlement.owners_resolve d eid (SettleEvent.result payload) = true
    /\ r = {| SettleEventResponse.status := "settled" |}
    /\ o = Some (Settlement.settled d eid (SettleEvent.result payload)).
Proof.
  intros Hrun. pose proof Hrun as Hrun'. rewrite settle_event_unfold in Hrun.
  destruct (oid (SettleEvent.event_id payload)) as [eid|e] eqn:Hoid; [|done].
  exists eid. split; [done|].
  assert (Settlement.all_hold d eid (SettleEvent.result payload) = true
          /\ Settlement.owners_resolve d eid (SettleEvent.result payload) = true)
    as [Hpre Hown].
  { unfold Settlement.all_hold, Settlement.event_exists, Settlement.result_valid.
    destruct (DB.event d !! eid) as [ev|]; [|done]. cbv zeta in Hrun.
    destruct (existsb _ (Event.outcomes ev)); [|done]. simpl in Hrun.
    split; [done|]. apply owners_resolve_Forall.
    destruct (for_each _ pay_out _) as [[u|e] d'] eqn:Hloop; [|done].
    by eapply for_each_pay_out_returned. }
  rewrite (settle_event_run d payload eid Hoid Hpre Hown) in Hrun'.
  by injection Hrun' as <- <-.
Qed.

(** ** Float comparisons *)

Lemma SFleb_SFltb (x y : spec_float) : SFleb x y = true -> SFltb y x = false.
Proof.
  unfold SFleb, SFltb.
  destruct x as [[]|[]| |[] mx ex], y as [[]|[]| |[] my ey]; simpl; try done.
  all: rewrite (Z.compare_antisym ex ey); destruct (ex ?= ey)%Z; simpl; try done.
  all: change (Pos.compare_cont Eq my mx) with (my ?= mx)%positive.
  all: change (Pos.compare_cont Eq mx my) with (mx ?= my)%positive.
  all: rewrite (Pos.compare_antisym mx my); by destruct (mx ?= my)%positive.
Qed.

Lemma leb_not_ltb (x y : float) : (x <=? y)%float = true -> (y <? x)%float = false.
Proof. rewrite leb_spec, ltb_spec. apply SFleb_SFltb. Qed.

Lemma filter_bool_nil {A} (p : A -> bool) (l : list A) :
  (forall x, x ∈ l -> p x = false) -> List.filter p l = [].
Proof.
  induction l as [|a l IH]; intros H; simpl; [done|].
  rewrite (H a) by apply list_elem_of_here.
  apply IH. intros x Hx. apply H. by apply list_elem_of_further.
Qed.

Lemma place_bet_returned (d : DB.t) (inserted_id : ObjectId) (payload : PlaceBet.t)
    (resp : PlaceBetResponse.t) (o : option DB.t) :
  place_bet (Some d) inserted_id payload = (Returned resp, o) ->
  exists bid eid ev chosen,
    oid (PlaceBet.bettor_id payload) = Returned bid
    /\ oid (PlaceBet.event_id payload) = Returned eid
    /\ DB.event d !! eid = Some ev
    /\ List.find (fun o => String.eqb (Outcome.name o) (PlaceBet.outcome payload))
                 (Event.outcomes ev) = Some chosen
    /\ PlaceBetResponse.potential_payout resp
       = round2 (PlaceBet.amount payload * Outcome.odds chosen)
    /\ o = Some {| DB.event := DB.event d;
                   DB.bettor := alter (inc_balance (- PlaceBet.amount payload)) bid
                                  (DB.bettor d);
                   DB.bet :=
                     <[inserted_id :=
                         {| Bet.user_id := bid;
                            Bet.event_id := eid;
                            Bet.outcome := PlaceBet.outcome payload;
                            Bet.amount := Some (PlaceBet.amount payload);
                            Bet.odds_at_bet := Some (Outcome.odds chosen);
                            Bet.status := "pending";
                            Bet.potential_payout :=
                              round2 (PlaceBet.amount payload * Outcome.odds chosen);
                            Bet.settled_payout := None |}]> (DB.bet d) |}.
Proof.
  rewrite place_bet_unfold.
  destruct (oid (PlaceBet.bettor_id payload)) as [bid|]; [|done].
  destruct (DB.bettor d !! bid) as [bettor|]; [|done].
  destruct (oid (PlaceBet.event_id payload)) as [eid|]; [|done].
  destruct (DB.event d !! eid) as [ev|] eqn:Hev; [|done].
  destruct (negb _); [done|].
  destruct (List.find _ _) as [chosen|] eqn:Hfind; [|done].
  cbv zeta.
  destruct (_ <=? _)%float; [done|].
  destruct (_ <? _)%float; [done|].
  unfold Bet.make. destruct (Bet.violations _); [|done]. simpl.
  intros [= <- <-]. by exists bid, eid, ev, chosen.
Qed.

(** * The claims *)


(** C3: after a settlement that returned, the event has status "settled"
    and its result is the chosen name, which is the name of one of its
    outcomes; every bet on that event has status "won" or "lost", none is
    pending. *)
Theorem settled_event_and_bets (d d' : DB.t) (payload : SettleEvent.t)
    (r : SettleEventResponse.t) :
  settle_event (Some d) payload = (Returned r, Some d') ->
  exists eid ev',
    oid (SettleEvent.event_id payload) = Returned eid
    /\ DB.event d' !! eid = Some ev'
    /\ Event.status ev' = "settled"
    /\ Event.result ev' = Some (SettleEvent.result payload)
    /\ (exists o, o ∈ Event.outcomes ev'
                  /\ Outcome.name o = SettleEvent.result payload)
    /\ (forall i b,
          DB.bet d' !! i = Some b -> Bet.event_id b = eid ->
          (Bet.status b = "won" \/ Bet.status b = "lost")
          /\ Bet.status b <> "pending").
Proof.
  intros Hrun. apply settle_event_returned in Hrun
    as (eid & Hoid & Hpre & _ & _ & [= ->]).
  unfold Settlement.all_hold, Settlement.event_exists, Settlement.result_valid in Hpre.
  destruct (DB.event d !! eid) as [ev|] eqn:Hev; [|done]. simpl in Hpre.
  exists eid, (set_event_result "settled" (SettleEvent.result payload) ev).
  split; [done|]. split; [by simpl; rewrite lookup_alter_eq, Hev|].
  split; [done|]. split; [done|]. split.
  - apply existsb_exists in Hpre as (o & Hin & Hname).
    exists o. split; [by apply list_elem_of_In|by apply String.eqb_eq].
  - intros i b. simpl. rewrite lookup_fmap.
    destruct (DB.bet d !! i) as [b0|]; [|done]. simpl. intros [= <-] Hid.
    unfold Settlement.settled_bet in *.
    destruct (is_winning eid (SettleEvent.result payload) b0) eqn:Hw;
      [simpl; split; [by left|done]|].
    destruct (is_losing eid (SettleEvent.result payload) b0) eqn:Hl;
      [simpl; split; [by right|done]|].
    exfalso. unfold is_winning, is_losing in *.
    rewrite Hid, String.eqb_refl in Hw, Hl. simpl in *.
    by destruct (String.eqb (Bet.outcome b0) (SettleEvent.result payload)).
Qed.

(** C10: settling an event on which there is no bet returns "settled",
    sets the status of the event to "settled" and its result to the
    winning name, and leaves the bettors and the bets as they were. *)
Theorem settle_without_bets (d : DB.t) (payload : SettleEvent.t) (eid : ObjectId)
    (ev : Event.t) :
  oid (SettleEvent.event_id payload) = Returned eid ->
  DB.event d !! eid = Some ev ->
  Settlement.result_valid d eid (SettleEvent.result payload) = true ->
  (forall i b, DB.bet d !! i = Some b -> Bet.event_id b <> eid) ->
  settle_event (Some d) payload
  = (Returned {| SettleEventResponse.status := "settled" |},
     Some {| DB.event :=
               <[eid := {| Event.title := Event.title ev;
                           Event.category := Event.category ev;
                           Event.start_time := Event.start_time ev;
                           Event.status := "settled";
                           Event.outcomes := Event.outcomes ev;
                           Event.result := Some (SettleEvent.result payload) |}]>
                 (DB.event d);
             DB.bettor := DB.bettor d;
             DB.bet := DB.bet d |}).
Proof.
  intros Hoid Hev Hres Hnone.
  set (result := SettleEvent.result payload) in *.
  assert (forall i b, DB.bet d !! i = Some b -> String.eqb (Bet.event_id b) eid = false)
    as Hne.
  { intros i b Hb. apply String.eqb_neq. by eapply Hnone. }
  assert (Settlement.winning_bets d eid result = []) as Hwin.
  { unfold Settlement.winning_bets. apply filter_bool_nil.
    intros [i b] Hin. apply elem_of_map_to_list in Hin.
    unfold is_winning. simpl. by rewrite (Hne i b). }
  rewrite (settle_event_run d payload eid); [| done | | ].
  - f_equal. f_equal. unfold Settlement.settled. fold result. rewrite Hwin. simpl.
    f_equal.
    + apply map_eq. intros j. rewrite lookup_alter, lookup_insert.
      case_decide; [subst; by rewrite Hev|done].
    + apply map_eq. intros j. rewrite lookup_fmap.
      destruct (DB.bet d !! j) as [b|] eqn:Hb; [|done]. simpl.
      unfold Settlement.settled_bet, is_winning, is_losing.
      by rewrite (Hne j b).
  - unfold Settlement.all_hold, Settlement.event_exists. by rewrite Hev.
  - unfold Settlement.owners_resolve. fold result. by rewrite Hwin.
Qed.





(** ** Placement against its preconditions *)

Lemma place_bet_violation (d : DB.t) (inserted_id : ObjectId) (payload : PlaceBet.t)
    (bid eid : ObjectId) (e : Exception) :
  oid (PlaceBet.bettor_id payload) = Returned bid ->
  oid (PlaceBet.event_id payload) = Returned eid ->
  Placement.first_violation d bid eid (PlaceBet.outcome payload)
    (PlaceBet.amount payload) = Some e ->
  place_bet (Some d) inserted_id payload = (Raised e, Some d).
Proof.
  intros Hbid Heid. rewrite place_bet_unfold, Hbid, Heid.
  unfold Placement.first_violation, Placement.bettor_exists, Placement.event_exists,
    Placement.event_open, Placement.outcome_matches, Placement.amount_positive,
    Placement.amount_covered.
  destruct (DB.bettor d !! bid) as [bettor|]; simpl; [|by intros [= <-]].
  destruct (DB.event d !! eid) as [ev|]; simpl; [|by intros [= <-]].
  destruct (String.eqb (Event.status ev) "open"); simpl; [|by intros [= <-]].
  rewrite find_existsb.
  destruct (List.find _ (Event.outcomes ev)) as [chosen|]; simpl; [|by intros [= <-]].
  destruct (PlaceBet.amount payload <=? 0)%float; simpl; [by intros [= <-]|].
  destruct (Placement.balance_or_default bettor <? PlaceBet.amount payload)%float;
    simpl; [by intros [= <-]|done].
Qed.

Lemma place_bet_no_violation (d : DB.t) (inserted_id : ObjectId) (payload : PlaceBet.t)
    (bid eid : ObjectId) :
  oid (PlaceBet.bettor_id payload) = Returned bid ->
  oid (PlaceBet.event_id payload) = Returned eid ->
  Placement.first_violation d bid eid (PlaceBet.outcome payload)
    (PlaceBet.amount payload) = None ->
  (exists resp d', place_bet (Some d) inserted_id payload = (Returned resp, Some d'))
  \/ (exists fields,
        place_bet (Some d) inserted_id payload
        = (Raised (ValidationError "Bet" fields), Some d)).
Proof.
  intros Hbid Heid. rewrite place_bet_unfold, Hbid, Heid.
  unfold Placement.first_violation, Placement.bettor_exists, Placement.event_exists,
    Placement.event_open, Placement.outcome_matches, Placement.amount_positive,
    Placement.amount_covered.
  destruct (DB.bettor d !! bid) as [bettor|]; simpl; [|done].
  destruct (DB.event d !! eid) as [ev|]; simpl; [|done].
  destruct (String.eqb (Event.status ev) "open"); simpl; [|done].
  rewrite find_existsb.
  destruct (List.find _ (Event.outcomes ev)) as [chosen|]; simpl; [|done].
  destruct (PlaceBet.amount payload <=? 0)%float; simpl; [done|].
  destruct (Placement.balance_or_default bettor <? PlaceBet.amount payload)%float;
    simpl; [done|].
  intros _. unfold Bet.make.
  destruct (Bet.violations _) as [|f fs]; [left|right]; eauto.
Qed.

Lemma all_hold_first_violation (d : DB.t) (bid eid : ObjectId) (outcome : string)
    (amount : float) :
  Placement.all_hold d bid eid outcome amount = false <->
  exists e, Placement.first_violation d bid eid outcome amount = Some e.
Proof.
  unfold Placement.all_hold, Placement.first_violation.
  destruct (Placement.bettor_exists d bid); simpl; [|by split; eauto].
  destruct (Placement.event_exists d eid); simpl; [|by split; eauto].
  destruct (Placement.event_open d eid); simpl; [|by split; eauto].
  destruct (Placement.outcome_matches d eid outcome); simpl; [|by split; eauto].
  destruct (Placement.amount_positive amount); simpl; [|by split; eauto].
  destruct (Placement.amount_covered d bid amount); simpl; [|by split; eauto].
  split; [done|]. by intros [e ?].
Qed.

Lemma place_bet_raised (d : DB.t) (inserted_id : ObjectId) (payload : PlaceBet.t)
    (e : Exception) (o : option DB.t) :
  place_bet (Some d) inserted_id payload = (Raised e, o) -> o = Some d.
Proof.
  rewrite place_bet_unfold.
  destruct (oid (PlaceBet.bettor_id payload)) as [bid|]; [|by intros [= _ <-]].
  destruct (DB.bettor d !! bid) as [bettor|]; [|by intros [= _ <-]].
  destruct (oid (PlaceBet.event_id payload)) as [eid|]; [|by intros [= _ <-]].
  destruct (DB.event d !! eid) as [ev|]; [|by intros [= _ <-]].
  destruct (negb _); [by intros [= _ <-]|].
  destruct (List.find _ _) as [chosen|]; [|by intros [= _ <-]].
  cbv zeta.
  destruct (_ <=? _)%float; [by intros [= _ <-]|].
  destruct (_ <? _)%float; [by intros [= _ <-]|].
  destruct (Bet.make _); [done|by intros [= _ <-]].
Qed.

Lemma settle_event_violation (d : DB.t) (payload : SettleEvent.t) (eid : ObjectId)
    (e : Exception) :
  oid (SettleEvent.event_id payload) = Returned eid ->
  Settlement.first_violation d eid (SettleEvent.result payload) = Some e ->
  settle_event (Some d) payload = (Raised e, Some d).
Proof.
  intros Heid. rewrite settle_event_unfold, Heid.
  unfold Settlement.first_violation, Settlement.event_exists, Settlement.result_valid.
  destruct (DB.event d !! eid) as [ev|]; simpl; [|by intros [= <-]].
  destruct (existsb _ (Event.outcomes ev)); simpl; [done|by intros [= <-]].
Qed.

Lemma settlement_all_hold_first_violation (d : DB.t) (eid : ObjectId) (result : string) :
  Settlement.all_hold d eid result = false <->
  exists e, Settlement.first_violation d eid result = Some e.
Proof.
  unfold Settlement.all_hold, Settlement.first_violation.
  destruct (Settlement.event_exists d eid); simpl; [|by split; eauto].
  destruct (Settlement.result_valid d eid result); simpl; [|by split; eauto].
  split; [done|]. by intros [e ?].
Qed.

(** C4: when a precondition of [place_bet] does not hold the call raises
    and the store is the one it started from: no bet is inserted and no
    balance changes; this is so for every exception [place_bet] raises, and
    in particular for an amount greater than the balance.  When a
    precondition of [settle_event] does not hold the call raises and the
    store is the one it started from; in particular a result that names
    none of the outcomes of the event raises the invalid-result error and
    changes neither the event nor any bet. *)
Theorem failed_preconditions_write_nothing :
  (forall d inserted_id payload bid eid,
      oid (PlaceBet.bettor_id payload) = Returned bid ->
      oid (PlaceBet.event_id payload) = Returned eid ->
      Placement.all_hold d bid eid (PlaceBet.outcome payload)
        (PlaceBet.amount payload) = false ->
      exists e, place_bet (Some d) inserted_id payload = (Raised e, Some d))
  /\ (forall d inserted_id payload e o,
        place_bet (Some d) inserted_id payload = (Raised e, o) -> o = Some d)
  /\ (forall d inserted_id payload bid eid bettor,
        oid (PlaceBet.bettor_id payload) = Returned bid ->
        oid (PlaceBet.event_id payload) = Returned eid ->
        DB.bettor d !! bid = Some bettor ->
        (Placement.balance_or_default bettor <? PlaceBet.amount payload)%float = true ->
        exists e, place_bet (Some d) inserted_id payload = (Raised e, Some d))
  /\ (forall d payload eid,
        oid (SettleEvent.event_id payload) = Returned eid ->
        Settlement.all_hold d eid (SettleEvent.result payload) = false ->
        exists e, settle_event (Some d) payload = (Raised e, Some d))
  /\ (forall d payload eid ev,
        oid (SettleEvent.event_id payload) = Returned eid ->
        DB.event d !! eid = Some ev ->
        Settlement.result_valid d eid (SettleEvent.result payload) = false ->
        settle_event (Some d) payload
        = (Raised (HTTPException 400 "Result is not a valid outcome"), Some d)).
Proof.
  split; [|split; [|split; [|split]]].
  - intros d inserted_id payload bid eid Hbid Heid Hpre.
    apply all_hold_first_violation in Hpre as [e He].
    exists e. by apply (place_bet_violation d inserted_id payload bid eid).
  - intros d inserted_id payload e o. apply place_bet_raised.
  - intros d inserted_id payload bid eid bettor Hbid Heid Hbettor Hlt.
    assert (Placement.all_hold d bid eid (PlaceBet.outcome payload)
              (PlaceBet.amount payload) = false) as Hpre.
    { unfold Placement.all_hold, Placement.amount_covered.
      rewrite Hbettor, Hlt. simpl. apply andb_false_r. }
    apply all_hold_first_violation in Hpre as [e He].
    exists e. by apply (place_bet_violation d inserted_id payload bid eid).
  - intros d payload eid Heid Hpre.
    apply settlement_all_hold_first_violation in Hpre as [e He].
    exists e. by apply (settle_event_violation d payload eid).
  - intros d payload eid ev Heid Hev Hres.
    apply (settle_event_violation d payload eid); [done|].
    unfold Settlement.first_violation, Settlement.event_exists.
    by rewrite Hev, Hres.
Qed.


(** C9: for a bettor whose document stores no balance, and a bet that
    passes the first five preconditions, the insufficient-balance error is
    raised exactly when the amount is greater than 1000.0; an amount up to
    1000.0 passes the check and the call goes on to build the bet. *)
Theorem missing_balance_reads_1000 (d : DB.t) (inserted_id : ObjectId)
    (payload : PlaceBet.t) (bid eid : ObjectId) (bettor : Bettor.t) :
  oid (PlaceBet.bettor_id payload) = Returned bid ->
  oid (PlaceBet.event_id payload) = Returned eid ->
  DB.bettor d !! bid = Some bettor ->
  Bettor.balance bettor = None ->
  Placement.event_exists d eid
  && Placement.event_open d eid
  && Placement.outcome_matches d eid (PlaceBet.outcome payload)
  && Placement.amount_positive (PlaceBet.amount payload) = true ->
  ((1000 <? PlaceBet.amount payload)%float = true ->
   place_bet (Some d) inserted_id payload
   = (Raised (HTTPException 400 "Insufficient balance"), Some d))
  /\ ((PlaceBet.amount payload <=? 1000)%float = true ->
      Placement.first_violation d bid eid (PlaceBet.outcome payload)
        (PlaceBet.amount payload) = None
      /\ forall code detail,
           fst (place_bet (Some d) inserted_id payload)
           <> Raised (HTTPException code detail)).
Proof.
  intros Hbid Heid Hbettor Hbal Hpre.
  apply andb_true_iff in Hpre as [Hpre Hpos].
  apply andb_true_iff in Hpre as [Hpre Hout].
  apply andb_true_iff in Hpre as [Hex Hopen].
  assert (forall c : bool,
             (1000 <? PlaceBet.amount payload)%float = c ->
             Placement.first_violation d bid eid (PlaceBet.outcome payload)
               (PlaceBet.amount payload)
             = if c then Some (HTTPException 400 "Insufficient balance") else None)
    as Hfirst.
  { intros c Hc. unfold Placement.first_violation.
    unfold Placement.bettor_exists at 1. rewrite Hbettor, Hex, Hopen, Hout, Hpos.
    simpl. unfold Placement.amount_covered, Placement.balance_or_default.
    rewrite Hbettor, Hbal. simpl. rewrite Hc. by destruct c. }
  split.
  - intros Hgt. apply (place_bet_violation d inserted_id payload bid eid); [done..|].
    by apply (Hfirst true).
  - intros Hle. apply leb_not_ltb in Hle. pose proof (Hfirst false Hle) as Hnone.
    split; [done|]. intros code detail.
    destruct (place_bet_no_violation d inserted_id payload bid eid Hbid Heid Hnone)
      as [(resp & d' & ->)|(fields & ->)]; done.
Qed.

(** ** A second settlement *)

Lemma settled_bet_fields (eid result : string) (b : Bet.t) :
  Bet.user_id (Settlement.settled_bet eid result b) = Bet.user_id b
  /\ Bet.event_id (Settlement.settled_bet eid result b) = Bet.event_id b
  /\ Bet.outcome (Settlement.settled_bet eid result b) = Bet.outcome b
  /\ Bet.amount (Settlement.settled_bet eid result b) = Bet.amount b
  /\ Bet.odds_at_bet (Settlement.settled_bet eid result b) = Bet.odds_at_bet b.
Proof.
  unfold Settlement.settled_bet.
  destruct (is_winning eid result b); [done|].
  by destruct (is_losing eid result b).
Qed.









(** ** A bet keeps the odds it was placed at *)

(** C7: the odds a bet is placed at are copied into the bet.  After a
    placement that returned, whatever the outcomes and odds of the event are
    replaced with, the stored bet still carries the odds the matched
    outcome had at placement; and a settlement of that event in favour of
    the bet's outcome, on the store with the replaced odds, marks the bet
    won and pays [round(amount * odds at placement, 2)], the potential
    payout that the placement returned. *)
Theorem odds_at_bet_is_a_snapshot (d d1 : DB.t) (inserted_id : ObjectId)
    (payload : PlaceBet.t) (resp : PlaceBetResponse.t) :
  place_bet (Some d) inserted_id payload = (Returned resp, Some d1) ->
  exists eid ev chosen,
    oid (PlaceBet.event_id payload) = Returned eid
    /\ DB.event d !! eid = Some ev
    /\ List.find (fun o => String.eqb (Outcome.name o) (PlaceBet.outcome payload))
                 (Event.outcomes ev) = Some chosen
    /\ forall outs,
        (Bet.odds_at_bet <$> DB.bet (reprice eid outs d1) !! inserted_id)
        = Some (Some (Outcome.odds chosen))
        /\ forall settlement r d2,
            oid (SettleEvent.event_id settlement) = Returned eid ->
            SettleEvent.result settlement = PlaceBet.outcome payload ->
            settle_event (Some (reprice eid outs d1)) settlement
            = (Returned r, Some d2) ->
            exists b2,
              DB.bet d2 !! inserted_id = Some b2
              /\ Bet.odds_at_bet b2 = Some (Outcome.odds chosen)
              /\ Bet.status b2 = "won"
              /\ Bet.settled_payout b2
                 = Some (round2 (PlaceBet.amount payload * Outcome.odds chosen))
              /\ Bet.settled_payout b2
                 = Some (PlaceBetResponse.potential_payout resp).
Proof.
  intros Hplace.
  apply place_bet_returned in Hplace
    as (bid & eid & ev & chosen & _ & Heid & Hev & Hfind & Hpot & [= ->]).
  exists eid, ev, chosen. split; [done|]. split; [done|]. split; [done|].
  intros outs. split; [by simpl; rewrite lookup_insert_eq|].
  intros settlement r d2 Heid' Hres Hsettle.
  apply settle_event_returned in Hsettle as (eid' & Heid'' & _ & _ & _ & [= ->]).
  rewrite Heid' in Heid''. injection Heid'' as <-.
  simpl. rewrite lookup_fmap, lookup_insert_eq. simpl.
  eexists. split; [reflexivity|].
  unfold Settlement.settled_bet, is_winning. simpl.
  rewrite Hres, !String.eqb_refl. simpl.
  by rewrite Hpot.
Qed.
(** C8: in the scenario of the seeded event (Team Red at 1.9, Draw at 3.2,
    Team Blue at 2.1) and a bettor holding 1000, a bet of 100 on Team Red
    returns a potential payout of exactly 190.0 and leaves a balance of
    exactly 900.0; settling with Team Red then marks that bet won with a
    settled payout of exactly 190.0 and brings the balance to exactly
    1090.0, all in binary64 arithmetic. *)
Theorem scenario_red_wins :
  fst (place_bet (Some Scenario.db0) Scenario.bet_1 Scenario.bet_on_red)
    = Returned {| PlaceBetResponse.id := Scenario.bet_1;
                  PlaceBetResponse.potential_payout := 190 |}
  /\ balance_of (Some Scenario.db0) Scenario.red_fan = Some 1000%float
  /\ balance_of Scenario.db1 Scenario.red_fan = Some 900%float
  /\ fst (settle_event Scenario.db1 Scenario.red_wins)
     = Returned {| SettleEventResponse.status := "settled" |}
  /\ (Bet.status <$> bet_of Scenario.db2 Scenario.bet_1) = Some "won"
  /\ (bet_of Scenario.db2 Scenario.bet_1 ≫= Bet.settled_payout) = Some 190%float
  /\ balance_of Scenario.db2 Scenario.red_fan = Some 1090%float.
Proof. vm_compute. repeat split; reflexivity. Qed.

(** ** The theorems at work on the scenario *)


Lemma settled_event_and_bets_witness :
  exists ev',
    DB.event Scenario.db_settled !! Scenario.event_id = Some ev'
    /\ Event.status ev' = "settled"
    /\ Event.result ev' = Some "Team Red".
Proof.
  destruct (settled_event_and_bets Scenario.db_both Scenario.db_settled
              Scenario.red_wins {| SettleEventResponse.status := "settled" |})
    as (eid & ev' & Hoid & Hev & Hst & Hres & _);
    [vm_compute; reflexivity|].
  vm_compute in Hoid. injection Hoid as <-.
  exists ev'. split; [exact Hev|]. split; [exact Hst|exact Hres].
Defined.

Lemma failed_preconditions_write_nothing_witness :
  settle_event (Some Scenario.db_both) Scenario.nobody_wins
  = (Raised (HTTPException 400 "Result is not a valid outcome"),
     Some Scenario.db_both)
  /\ exists e,
      place_bet (Some Scenario.db0) Scenario.bet_1 Scenario.overdraft_bet
      = (Raised e, Some Scenario.db0).
Proof.
  destruct failed_preconditions_write_nothing as (_ & _ & Hover & _ & Hres).
  split.
  - apply (Hres Scenario.db_both Scenario.nobody_wins Scenario.event_id
             Scenario.red_vs_blue); vm_compute; reflexivity.
  - apply (Hover Scenario.db0 Scenario.bet_1 Scenario.overdraft_bet
             Scenario.red_fan Scenario.event_id
             {| Bettor.display_name := "Red fan";
                Bettor.balance := Some 1000%float |});
      vm_compute; reflexivity.
Defined.


Lemma missing_balance_reads_1000_witness :
  Placement.first_violation Scenario.db0 Scenario.newcomer Scenario.event_id
    "Team Blue" 1000%float = None
  /\ place_bet (Some Scenario.db0) Scenario.bet_1 (Scenario.newcomer_bet 1000.5)
     = (Raised (HTTPException 400 "Insufficient balance"), Some Scenario.db0).
Proof.
  split.
  - apply (missing_balance_reads_1000 Scenario.db0 Scenario.bet_1
             (Scenario.newcomer_bet 1000) Scenario.newcomer Scenario.event_id
             {| Bettor.display_name := "Newcomer"; Bettor.balance := None |});
      vm_compute; reflexivity.
  - apply (missing_balance_reads_1000 Scenario.db0 Scenario.bet_1
             (Scenario.newcomer_bet 1000.5) Scenario.newcomer Scenario.event_id
             {| Bettor.display_name := "Newcomer"; Bettor.balance := None |});
      vm_compute; reflexivity.
Defined.

Lemma settle_without_bets_witness :
  fst (settle_event (Some Scenario.db0) Scenario.red_wins)
  = Returned {| SettleEventResponse.status := "settled" |}.
Proof.
  rewrite (settle_without_bets Scenario.db0 Scenario.red_wins Scenario.event_id
             Scenario.red_vs_blue).
  - reflexivity.
  - vm_compute; reflexivity.
  - vm_compute; reflexivity.
  - vm_compute; reflexivity.
  - intros i b H. vm_compute in H. discriminate H.
Defined.


Lemma odds_at_bet_is_a_snapshot_witness :
  exists b2,
    DB.bet Scenario.db_repriced_settled !! Scenario.bet_1 = Some b2
    /\ Bet.settled_payout b2 = Some 190%float.
Proof.
  destruct (odds_at_bet_is_a_snapshot Scenario.db0 (default Scenario.db0 Scenario.db1)
              Scenario.bet_1 Scenario.bet_on_red
              {| PlaceBetResponse.id := Scenario.bet_1;
                 PlaceBetResponse.potential_payout := 190 |})
    as (eid & ev & chosen & Hoid & _ & _ & Hsnap); [vm_compute; reflexivity|].
  vm_compute in Hoid. injection Hoid as <-.
  destruct (Hsnap Scenario.new_odds) as (_ & Hsettle).
  destruct (Hsettle Scenario.red_wins {| SettleEventResponse.status := "settled" |}
              Scenario.db_repriced_settled)
    as (b2 & Hb2 & _ & _ & _ & Hpaid); [vm_compute; reflexivity..|].
  exists b2. split; [exact Hb2|exact Hpaid].
Defined.

(** ** The stores the handlers build

    The bets that [place_bet] stores name their bettor by the text of an
    identifier, and [settle_event] keeps that text: on such stores every
    winning bet resolves to its bettor and the settlement loop runs to its
    end. *)

Lemma lower_hex_idempotent (c : ascii) : lower_hex (lower_hex c) = lower_hex c.
Proof. destruct c as [[] [] [] [] [] [] [] []]; reflexivity. Qed.

Lemma is_hex_digit_lower_hex (c : ascii) :
  is_hex_digit (lower_hex c) = is_hex_digit c.
Proof. destruct c as [[] [] [] [] [] [] [] []]; reflexivity. Qed.

Lemma str_map_String (f : ascii -> ascii) (c : ascii) (s : string) :
  str_map f (String c s) = String (f c) (str_map f s).
Proof. reflexivity. Qed.

Lemma str_map_length (f : ascii -> ascii) (s : string) :
  String.length (str_map f s) = String.length s.
Proof.
  induction s as [|c s IH]; [reflexivity|].
  rewrite str_map_String. simpl. by rewrite IH.
Qed.

Lemma str_map_lower_hex_idempotent (s : string) :
  str_map lower_hex (str_map lower_hex s) = str_map lower_hex s.
Proof.
  induction s as [|c s IH]; [reflexivity|].
  by rewrite !str_map_String, lower_hex_idempotent, IH.
Qed.

Lemma str_map_lower_hex_digits (s : string) :
  forallb is_hex_digit (list_ascii_of_string (str_map lower_hex s))
  = forallb is_hex_digit (list_ascii_of_string s).
Proof.
  induction s as [|c s IH]; [reflexivity|].
  rewrite str_map_String. simpl. by rewrite is_hex_digit_lower_hex, IH.
Qed.

Lemma oid_of_identifier (val : string) (i : ObjectId) :
  oid val = Returned i -> oid (str i) = Returned i.
Proof.
  unfold oid, str, ObjectId_is_valid.
  destruct (_ && _) eqn:Hvalid; [|done]. intros [= <-].
  by rewrite str_map_length, str_map_lower_hex_digits, Hvalid,
    str_map_lower_hex_idempotent.
Qed.

Lemma bets_name_bettors_resolve (d : DB.t) (eid result : string) :
  bets_name_bettors d -> Settlement.owners_resolve d eid result = true.
Proof.
  intros Hwf. apply owners_resolve_Forall, Forall_forall.
  intros [i b] Hin. apply elem_of_filter_bool in Hin as [Hin _].
  apply elem_of_map_to_list in Hin. by apply (Hwf i b).
Qed.

Lemma place_bet_names_bettor (d d' : DB.t) (inserted_id : ObjectId)
    (payload : PlaceBet.t) (c : Completion PlaceBetResponse.t) :
  bets_name_bettors d ->
  place_bet (Some d) inserted_id payload = (c, Some d') ->
  bets_name_bettors d'.
Proof.
  intros Hwf Hrun. destruct c as [resp|e].
  - apply place_bet_returned in Hrun
      as (bid & eid & ev & chosen & Hbid & _ & _ & _ & _ & [= ->]).
    intros i b. simpl. rewrite lookup_insert.
    case_decide; [|by apply Hwf]. intros [= <-].
    apply oid_of_identifier in Hbid. unfold str in Hbid.
    unfold Settlement.owner. simpl. by rewrite Hbid.
  - apply place_bet_raised in Hrun. by injection Hrun as <-.
Qed.

Lemma settle_event_names_bettors (d d' : DB.t) (payload : SettleEvent.t)
    (r : SettleEventResponse.t) :
  bets_name_bettors d ->
  settle_event (Some d) payload = (Returned r, Some d') ->
  bets_name_bettors d'.
Proof.
  intros Hwf Hrun.
  apply settle_event_returned in Hrun as (eid & _ & _ & _ & _ & [= ->]).
  intros i b. simpl. rewrite lookup_fmap.
  destruct (DB.bet d !! i) as [b0|] eqn:Hb0; [|done]. simpl. intros [= <-].
  destruct (settled_bet_fields eid (SettleEvent.result payload) b0) as (Hu & _).
  unfold Settlement.owner. rewrite Hu. by apply (Hwf i b0).
Qed.

(** ** An amount that is not a number

    NaN is neither [<= 0] nor greater than any balance: it passes the two
    amount checks of [place_bet] and is stopped by the [Bet] schema, before
    anything is written. *)

Example nan_amount_is_rejected_by_the_schema :
  place_bet (Some Scenario.db0) Scenario.bet_1
    {| PlaceBet.bettor_id := Scenario.red_fan;
       PlaceBet.event_id := Scenario.event_id;
       PlaceBet.outcome := "Team Red";
       PlaceBet.amount := nan |}
  = (Raised (ValidationError "Bet" ["amount"; "potential_payout"]),
     Some Scenario.db0).
Proof. vm_compute. reflexivity. Qed.

(** ** A bettor without a stored balance after a bet

    The check reads 1000.0 and [$inc] then creates the field: after a bet
    of 100 the stored balance is -100.0. *)

Example newcomer_balance_after_bet :
  balance_of (Some Scenario.db0) Scenario.newcomer = None
  /\ balance_of (snd (place_bet (Some Scenario.db0) Scenario.bet_1
                        (Scenario.newcomer_bet 100))) Scenario.newcomer
     = Some (-100)%float.
Proof. vm_compute. split; reflexivity. Qed.

(** * Further properties of the handlers *)

(** ** Identifiers that are not well formed *)

Lemma oid_raised (val : string) (e : Exception) :
  oid val = Raised e -> e = HTTPException 400 "Invalid ID format".
Proof. unfold oid. destruct (ObjectId_is_valid val); [done|]. by intros [= <-]. Qed.



(** ** What a placement leaves alone *)

Lemma same_stake_refl (b : Bet.t) : same_stake b b.
Proof. by repeat split. Qed.

Lemma same_stake_trans (b1 b2 b3 : Bet.t) :
  same_stake b1 b2 -> same_stake b2 b3 -> same_stake b1 b3.
Proof.
  intros (?&?&?&?&?&?) (?&?&?&?&?&?). repeat split; congruence.
Qed.

Lemma same_stake_settlement (status : string) (payout : float) (b : Bet.t) :
  same_stake b (set_bet_settlement status payout b).
Proof. by repeat split. Qed.

Lemma opt_same_stake_refl (o : option Bet.t) : option_Forall2 same_stake o o.
Proof. destruct o; constructor. apply same_stake_refl. Qed.

Lemma opt_same_stake_trans (o1 o2 o3 : option Bet.t) :
  option_Forall2 same_stake o1 o2 -> option_Forall2 same_stake o2 o3 ->
  option_Forall2 same_stake o1 o3.
Proof.
  intros H12 H23. destruct H12; inversion H23; subst; constructor.
  by eapply same_stake_trans.
Qed.

Lemma opt_same_name_refl (o : option Bettor.t) : option_Forall2 same_name o o.
Proof. destruct o; by constructor. Qed.

Lemma opt_same_name_trans (o1 o2 o3 : option Bettor.t) :
  option_Forall2 same_name o1 o2 -> option_Forall2 same_name o2 o3 ->
  option_Forall2 same_name o1 o3.
Proof.
  intros H12 H23. destruct H12; inversion H23; subst; constructor.
  unfold same_name in *. congruence.
Qed.

Lemma opt_same_name_inc (m : gmap string Bettor.t) (u v : ObjectId) (p : float) :
  option_Forall2 same_name (m !! u) (alter (inc_balance p) v m !! u).
Proof.
  rewrite lookup_alter. case_decide; [subst|apply opt_same_name_refl].
  destruct (m !! u); by constructor.
Qed.

Lemma opt_same_stake_alter (m : gmap string Bet.t) (i j : ObjectId)
    (status : string) (p : float) :
  option_Forall2 same_stake (m !! i)
    (alter (set_bet_settlement status p) j m !! i).
Proof.
  rewrite lookup_alter. case_decide; [subst|apply opt_same_stake_refl].
  destruct (m !! i); constructor. apply same_stake_settlement.
Qed.

(** X2: whatever way [place_bet] ends, it leaves the events as they were,
    touches no bet other than the one it inserts, no bettor other than the
    one named by the request, and never changes the name of a bettor. *)
Theorem place_bet_frame (d d' : DB.t) (inserted_id : ObjectId)
    (payload : PlaceBet.t) (c : Completion PlaceBetResponse.t) :
  place_bet (Some d) inserted_id payload = (c, Some d') ->
  DB.event d' = DB.event d
  /\ (forall i, i <> inserted_id -> DB.bet d' !! i = DB.bet d !! i)
  /\ (forall u, oid (PlaceBet.bettor_id payload) <> Returned u ->
                DB.bettor d' !! u = DB.bettor d !! u)
  /\ (forall u, option_Forall2 same_name (DB.bettor d !! u) (DB.bettor d' !! u)).
Proof.
  intros Hrun. destruct c as [resp|e].
  - apply place_bet_returned in Hrun
      as (bid & eid & ev & chosen & Hbid & _ & _ & _ & _ & [= ->]).
    simpl. split; [done|]. split; [|split].
    + intros i Hi. by rewrite lookup_insert_ne.
    + intros u Hu. rewrite lookup_alter_ne; [done|]. congruence.
    + intros u. apply opt_same_name_inc.
  - apply place_bet_raised in Hrun. injection Hrun as <-.
    split; [done|]. split; [done|]. split; [done|].
    intros u. apply opt_same_name_refl.
Qed.

Lemma place_bet_frame_witness :
  DB.event (default Scenario.db0 Scenario.db1) = DB.event Scenario.db0
  /\ DB.bettor (default Scenario.db0 Scenario.db1) !! Scenario.draw_fan
     = DB.bettor Scenario.db0 !! Scenario.draw_fan.
Proof.
  destruct (place_bet_frame Scenario.db0 (default Scenario.db0 Scenario.db1)
              Scenario.bet_1 Scenario.bet_on_red
              (Returned {| PlaceBetResponse.id := Scenario.bet_1;
                           PlaceBetResponse.potential_payout := 190 |}))
    as (Hev & _ & Hother & _); [vm_compute; reflexivity|].
  split; [exact Hev|]. apply Hother. vm_compute. discriminate.
Defined.

(** ** The settlement loop, however it ends *)

Lemma pay_out_cases (ib : ObjectId * Bet.t) (d : DB.t) :
  (exists u,
      Settlement.owner (snd ib) = Some u
      /\ pay_out ib d
         = (Returned tt,
            {| DB.event := DB.event d;
               DB.bettor := alter (inc_balance (payout_of (snd ib))) u (DB.bettor d);
               DB.bet := Settlement.mark_won (DB.bet d) ib |}))
  \/ (Settlement.owner (snd ib) = None
      /\ pay_out ib d
         = (Raised (HTTPException 400 "Invalid ID format"),
            {| DB.event := DB.event d;
               DB.bettor := DB.bettor d;
               DB.bet := Settlement.mark_won (DB.bet d) ib |})).
Proof.
  unfold Settlement.owner, pay_out, bind, lift, update_one_bet,
    update_one_bettor, modify. simpl.
  destruct (oid (Bet.user_id ib.2)) as [u|e] eqn:Hoid.
  - left. by exists u.
  - right. by rewrite (oid_raised _ _ Hoid).
Qed.

Lemma for_each_pay_out_frame (l : list (ObjectId * Bet.t)) (d d' : DB.t)
    (c : Completion unit) :
  for_each l pay_out d = (c, d') ->
  DB.event d' = DB.event d
  /\ (forall i, option_Forall2 same_stake (DB.bet d !! i) (DB.bet d' !! i))
  /\ (forall i, i ∉ l.*1 -> DB.bet d' !! i = DB.bet d !! i)
  /\ (forall u, option_Forall2 same_name (DB.bettor d !! u) (DB.bettor d' !! u)).
Proof.
  revert d. induction l as [|ib l IH]; intros d Hrun; simpl in Hrun.
  - injection Hrun as _ <-. split; [done|]. split; [|split; [done|]].
    + intros i. apply opt_same_stake_refl.
    + intros u. apply opt_same_name_refl.
  - unfold bind at 1 in Hrun.
    destruct (pay_out_cases ib d) as [(u & _ & Hstep)|(_ & Hstep)];
      rewrite Hstep in Hrun.
    + apply IH in Hrun as (Hev & Hst & Hout & Hnm). simpl in *.
      split; [done|]. split; [|split].
      * intros i. eapply opt_same_stake_trans; [|apply Hst].
        apply opt_same_stake_alter.
      * intros i [Hne Hi]%not_elem_of_cons. rewrite Hout by done.
        unfold Settlement.mark_won. by rewrite lookup_alter_ne.
      * intros v. eapply opt_same_name_trans; [|apply Hnm].
        apply opt_same_name_inc.
    + injection Hrun as _ <-. simpl. split; [done|]. split; [|split].
      * intros i. apply opt_same_stake_alter.
      * intros i [Hne Hi]%not_elem_of_cons.
        unfold Settlement.mark_won. by rewrite lookup_alter_ne.
      * intros v. apply opt_same_name_refl.
Qed.


Lemma winning_bets_keys (d : DB.t) (eid result : string) (i : ObjectId) :
  i ∈ (Settlement.winning_bets d eid result).*1 ->
  exists b, DB.bet d !! i = Some b /\ is_winning eid result b = true.
Proof.
  intros ([j b] & -> & Hin)%list_elem_of_fmap. exists b.
  unfold Settlement.winning_bets in Hin.
  apply elem_of_filter_bool in Hin as [Hin Hw].
  by apply elem_of_map_to_list in Hin.
Qed.

Lemma settle_event_stores (d d' : DB.t) (payload : SettleEvent.t) (eid : ObjectId)
    (c : Completion SettleEventResponse.t) :
  oid (SettleEvent.event_id payload) = Returned eid ->
  settle_event (Some d) payload = (c, Some d') ->
  d' = d
  \/ exists (c0 : Completion unit) (d2 : DB.t),
       Settlement.all_hold d eid (SettleEvent.result payload) = true
       /\ for_each (Settlement.winning_bets d eid (SettleEvent.result payload)) pay_out
            {| DB.event := alter (set_event_result "settled" (SettleEvent.result payload))
                             eid (DB.event d);
               DB.bettor := DB.bettor d;
               DB.bet := DB.bet d |} = (c0, d2)
       /\ ((exists e, c0 = Raised e /\ c = Raised e /\ d' = d2)
           \/ (exists r, c0 = Returned r
                /\ d' = {| DB.event := DB.event d2;
                           DB.bettor := DB.bettor d2;
                           DB.bet := Settlement.mark_lost eid (SettleEvent.result payload)
                                       <$> DB.bet d2 |})).
Proof.
  intros Hoid. rewrite settle_event_unfold, Hoid.
  unfold Settlement.all_hold, Settlement.event_exists, Settlement.result_valid.
  destruct (DB.event d !! eid) as [ev|]; [|intros [= _ <-]; by left].
  cbv zeta. destruct (existsb _ (Event.outcomes ev)); simpl;
    [|intros [= _ <-]; by left].
  destruct (for_each _ pay_out _) as [[r|e] d2] eqn:Hloop; intros [= <- <-];
    right; eexists _, d2; (split; [done|]); (split; [done|]).
  - right. by exists r.
  - left. by exists e.
Qed.

Lemma settle_event_keeps (d d' : DB.t) (payload : SettleEvent.t) (eid : ObjectId)
    (c : Completion SettleEventResponse.t) :
  oid (SettleEvent.event_id payload) = Returned eid ->
  settle_event (Some d) payload = (c, Some d') ->
  settlement_frame eid d d'.
Proof.
  intros Hoid Hrun.
  assert (settlement_frame eid d d) as Hrefl.
  { split; [done|]. split; [done|]. split; [intros i; apply opt_same_stake_refl|].
    split; [done|]. intros u. apply opt_same_name_refl. }
  destruct (settle_event_stores d d' payload eid c Hoid Hrun)
    as [->|(c0 & d2 & _ & Hloop & Hend)]; [done|].
  set (result := SettleEvent.result payload) in *.
  pose proof (for_each_pay_out_frame _ _ _ _ Hloop) as (Hev & Hst & Hout & Hnm).
  simpl in Hev, Hst, Hout, Hnm.
  assert (forall i b, DB.bet d !! i = Some b -> Bet.event_id b <> eid ->
                      DB.bet d2 !! i = Some b) as Hother.
  { intros i b Hb Hne. rewrite Hout; [done|].
    intros (b' & Hb' & Hw)%winning_bets_keys. rewrite Hb in Hb'.
    injection Hb' as <-. unfold is_winning in Hw.
    apply andb_true_iff in Hw as [Heq%String.eqb_eq _]. done. }
  assert (forall j, j <> eid -> DB.event d2 !! j = DB.event d !! j) as Hevs.
  { intros j Hj. by rewrite Hev, lookup_alter_ne. }
  assert (forall j, is_Some (DB.event d2 !! j) <-> is_Some (DB.event d !! j)) as Hdom.
  { intros j. rewrite Hev, lookup_alter. case_decide; [subst|done].
    by rewrite fmap_is_Some. }
  destruct Hend as [(e & _ & _ & ->)|(r & _ & ->)]; unfold settlement_frame; simpl.
  - split; [done|]. split; [done|]. split; [done|]. by split.
  - split; [done|]. split; [done|]. split; [|split; [|done]].
    + intros i. rewrite lookup_fmap.
      eapply opt_same_stake_trans; [apply Hst|].
      destruct (DB.bet d2 !! i) as [b|]; constructor.
      unfold Settlement.mark_lost.
      destruct (is_losing eid result b);
        [apply same_stake_settlement|apply same_stake_refl].
    + intros i b Hb Hne. rewrite lookup_fmap, (Hother i b Hb Hne). simpl.
      unfold Settlement.mark_lost, is_losing.
      apply String.eqb_neq in Hne. by rewrite Hne.
Qed.



(** ** A settlement that fails on the way *)



(** ** Stores whose bets name their bettors *)

Lemma same_stake_owner (b b' : Bet.t) :
  same_stake b b' -> Settlement.owner b' = Settlement.owner b.
Proof. intros (Hu & _). unfold Settlement.owner. by rewrite Hu. Qed.

(** X5: the bets of a store name their bettors by well-formed identifiers
    when [place_bet] stored them, and both handlers keep it so, however
    they end.  On such a store [settle_event] is all or nothing: when it
    raises it has written nothing, and when its preconditions hold it
    returns. *)
Theorem settlement_is_all_or_nothing :
  (forall d d' inserted_id payload c,
      bets_name_bettors d ->
      place_bet (Some d) inserted_id payload = (c, Some d') ->
      bets_name_bettors d')
  /\ (forall d d' payload c,
        bets_name_bettors d ->
        settle_event (Some d) payload = (c, Some d') ->
        bets_name_bettors d')
  /\ (forall d payload e o,
        bets_name_bettors d ->
        settle_event (Some d) payload = (Raised e, o) ->
        o = Some d)
  /\ (forall d payload eid,
        bets_name_bettors d ->
        oid (SettleEvent.event_id payload) = Returned eid ->
        Settlement.all_hold d eid (SettleEvent.result payload) = true ->
        fst (settle_event (Some d) payload)
        = Returned {| SettleEventResponse.status := "settled" |}).
Proof.
  split; [|split; [|split]].
  - intros d d' inserted_id payload c. apply place_bet_names_bettor.
  - intros d d' payload c Hwf Hrun.
    destruct (oid (SettleEvent.event_id payload)) as [eid|e] eqn:Hoid.
    + destruct (settle_event_keeps d d' payload eid c Hoid Hrun)
        as (_ & _ & Hst & _).
      intros i b' Hb'. specialize (Hst i). rewrite Hb' in Hst.
      inversion Hst as [b ? Hsame Hb|]; subst.
      rewrite (same_stake_owner b b' Hsame). by apply (Hwf i b).
    + rewrite settle_event_unfold, Hoid in Hrun. by injection Hrun as _ <-.
  - intros d payload e o Hwf Hrun.
    destruct (oid (SettleEvent.event_id payload)) as [eid|e'] eqn:Hoid.
    + destruct (Settlement.all_hold d eid (SettleEvent.result payload)) eqn:Hpre.
      * rewrite (settle_event_run d payload eid) in Hrun; [done..|].
        by apply bets_name_bettors_resolve.
      * apply settlement_all_hold_first_violation in Hpre as [e' He'].
        rewrite (settle_event_violation d payload eid e' Hoid He') in Hrun.
        by injection Hrun as _ <-.
    + rewrite settle_event_unfold, Hoid in Hrun. by injection Hrun as _ <-.
  - intros d payload eid Hwf Hoid Hpre.
    rewrite (settle_event_run d payload eid); [done..|].
    by apply bets_name_bettors_resolve.
Qed.

Lemma bets_name_bettors_empty (d : DB.t) : DB.bet d = ∅ -> bets_name_bettors d.
Proof. intros Hempty i b. by rewrite Hempty, lookup_empty. Qed.

Lemma settlement_is_all_or_nothing_witness :
  bets_name_bettors Scenario.db_settled.
Proof.
  destruct settlement_is_all_or_nothing as (Hplace & Hsettle & _).
  apply (Hsettle Scenario.db_both Scenario.db_settled Scenario.red_wins
           (Returned {| SettleEventResponse.status := "settled" |}));
    [|vm_compute; reflexivity].
  apply (Hplace (default Scenario.db0 Scenario.db1) Scenario.db_both Scenario.bet_2
           Scenario.bet_on_draw
           (Returned {| PlaceBetResponse.id := Scenario.bet_2;
                        PlaceBetResponse.potential_payout := 160 |}));
    [|vm_compute; reflexivity].
  apply (Hplace Scenario.db0 (default Scenario.db0 Scenario.db1) Scenario.bet_1
           Scenario.bet_on_red
           (Returned {| PlaceBetResponse.id := Scenario.bet_1;
                        PlaceBetResponse.potential_payout := 190 |}));
    [|vm_compute; reflexivity].
  apply bets_name_bettors_empty. reflexivity.
Defined.

(** ** What was promised is what is paid *)

Lemma Bet_make_returned (a : Bet.args) (b : Bet.t) :
  Bet.make a = Returned b ->
  (0 <? Bet.a_amount a)%float = true
  /\ (1 <? Bet.a_odds_at_bet a)%float = true
  /\ (0 <? Bet.a_potential_payout a)%float = true.
Proof.
  unfold Bet.make, Bet.violations, Bet.gt.
  destruct (0 <? Bet.a_amount a)%float; [|done].
  destruct (1 <? Bet.a_odds_at_bet a)%float; [|done].
  by destruct (0 <? Bet.a_potential_payout a)%float.
Qed.

Lemma place_bet_returned_bet (d : DB.t) (inserted_id : ObjectId)
    (payload : PlaceBet.t) (resp : PlaceBetResponse.t) (o : option DB.t) :
  place_bet (Some d) inserted_id payload = (Returned resp, o) ->
  exists d' b bid bettor,
    o = Some d'
    /\ DB.bet d' !! inserted_id = Some b
    /\ as_placed b
    /\ oid (PlaceBet.bettor_id payload) = Returned bid
    /\ DB.bettor d !! bid = Some bettor
    /\ (Placement.balance_or_default bettor <? PlaceBet.amount payload)%float = false
    /\ Bet.user_id b = bid
    /\ Bet.amount b = Some (PlaceBet.amount payload)
    /\ Bet.potential_payout b = PlaceBetResponse.potential_payout resp
    /\ payout_of b = PlaceBetResponse.potential_payout resp.
Proof.
  rewrite place_bet_unfold.
  destruct (oid (PlaceBet.bettor_id payload)) as [bid|] eqn:Hbid; [|done].
  destruct (DB.bettor d !! bid) as [bettor|] eqn:Hbettor; [|done].
  destruct (oid (PlaceBet.event_id payload)) as [eid|] eqn:Heid; [|done].
  destruct (DB.event d !! eid) as [ev|]; [|done].
  destruct (negb _); [done|].
  destruct (List.find _ _) as [chosen|]; [|done].
  cbv zeta.
  destruct (_ <=? _)%float; [done|].
  destruct (_ <? _)%float eqn:Hcov; [done|].
  destruct (Bet.make _) as [b|] eqn:Hmake; [|done].
  intros [= <- <-].
  apply Bet_make_returned in Hmake as Hgt. simpl in Hgt.
  destruct Hgt as (Ha & Ho & Hp).
  unfold Bet.make in Hmake. destruct (Bet.violations _); [|done].
  injection Hmake as <-.
  eexists _, _, bid, bettor. split; [reflexivity|].
  split; [by simpl; rewrite lookup_insert_eq|].
  apply oid_of_identifier in Hbid as Hbid'. apply oid_of_identifier in Heid.
  unfold str in *. simpl.
  split; [|by repeat split].
  exists (PlaceBet.amount payload), (Outcome.odds chosen). by repeat split.
Qed.

Lemma as_placed_same_stake (b b' : Bet.t) :
  same_stake b b' -> as_placed b -> as_placed b'.
Proof.
  intros (Hu & He & _ & Ha & Ho & Hp) (a & o & ?&?&?&?&?&?&?&?).
  exists a, o. rewrite Hu, He, Ha, Ho, Hp. by repeat split.
Qed.

Lemma as_placed_payout (b : Bet.t) :
  as_placed b -> payout_of b = Bet.potential_payout b.
Proof.
  intros (a & o & Ha & Ho & _ & _ & Hp & _). unfold payout_of.
  by rewrite Ha, Ho, Hp.
Qed.

(** X6: the bets that [place_bet] stores satisfy the [Bet] schema and carry
    the payout computed from their own amount and odds; both handlers keep
    every stored bet so, however they end.  On such a store a settlement
    that returns pays each winning bet exactly the potential payout
    recorded at placement, a positive amount. *)
Theorem winners_are_paid_the_potential_payout :
  (forall d d' inserted_id payload c,
      bets_as_placed d ->
      place_bet (Some d) inserted_id payload = (c, Some d') ->
      bets_as_placed d')
  /\ (forall d d' payload c,
        bets_as_placed d ->
        settle_event (Some d) payload = (c, Some d') ->
        bets_as_placed d')
  /\ (forall d d' payload eid r,
        bets_as_placed d ->
        oid (SettleEvent.event_id payload) = Returned eid ->
        settle_event (Some d) payload = (Returned r, Some d') ->
        forall i b,
          DB.bet d !! i = Some b ->
          Bet.event_id b = eid ->
          Bet.outcome b = SettleEvent.result payload ->
          exists b',
            DB.bet d' !! i = Some b'
            /\ Bet.status b' = "won"
            /\ Bet.settled_payout b' = Some (Bet.potential_payout b)
            /\ (0 <? Bet.potential_payout b)%float = true).
Proof.
  split; [|split].
  - intros d d' inserted_id payload c Hwf Hrun. destruct c as [resp|e].
    + pose proof Hrun as Hrun'.
      apply place_bet_returned_bet in Hrun
        as (d1 & b & _ & _ & [= <-] & Hb & Hplaced & _).
      apply place_bet_returned in Hrun' as (? & ? & ? & ? & _ & _ & _ & _ & _ & [= ->]).
      intros i b' Hb'. destruct (decide (i = inserted_id)) as [->|Hne].
      * congruence.
      * simpl in Hb'. rewrite lookup_insert_ne in Hb' by done. by apply (Hwf i).
    + apply place_bet_raised in Hrun. by injection Hrun as <-.
  - intros d d' payload c Hwf Hrun.
    destruct (oid (SettleEvent.event_id payload)) as [eid|e] eqn:Hoid.
    + destruct (settle_event_keeps d d' payload eid c Hoid Hrun)
        as (_ & _ & Hst & _).
      intros i b' Hb'. specialize (Hst i). rewrite Hb' in Hst.
      inversion Hst as [b ? Hsame Hb|]; subst.
      apply (as_placed_same_stake b b' Hsame). by apply (Hwf i).
    + rewrite settle_event_unfold, Hoid in Hrun. by injection Hrun as _ <-.
  - intros d d' payload eid r Hwf Hoid Hrun i b Hb Hev Hout.
    apply settle_event_returned in Hrun as (eid' & Hoid' & _ & _ & _ & [= ->]).
    rewrite Hoid in Hoid'. injection Hoid' as <-.
    simpl. rewrite lookup_fmap, Hb. simpl. eexists. split; [reflexivity|].
    unfold Settlement.settled_bet, is_winning.
    rewrite Hev, Hout, !String.eqb_refl. simpl.
    pose proof (Hwf i b Hb) as Hplaced.
    rewrite (as_placed_payout b Hplaced).
    split; [done|]. split; [done|].
    by destruct Hplaced as (a & o & _ & _ & _ & _ & _ & Hpos & _).
Qed.

Lemma bets_as_placed_empty (d : DB.t) : DB.bet d = ∅ -> bets_as_placed d.
Proof. intros Hempty i b. by rewrite Hempty, lookup_empty. Qed.

Lemma winners_are_paid_the_potential_payout_witness :
  exists b',
    DB.bet Scenario.db_settled !! Scenario.bet_1 = Some b'
    /\ Bet.settled_payout b' = Some 190%float.
Proof.
  destruct winners_are_paid_the_potential_payout as (Hplace & _ & Hpaid).
  assert (bets_as_placed Scenario.db_both) as Hwf.
  { apply (Hplace (default Scenario.db0 Scenario.db1) Scenario.db_both
             Scenario.bet_2 Scenario.bet_on_draw
             (Returned {| PlaceBetResponse.id := Scenario.bet_2;
                          PlaceBetResponse.potential_payout := 160 |}));
      [|vm_compute; reflexivity].
    apply (Hplace Scenario.db0 (default Scenario.db0 Scenario.db1)
             Scenario.bet_1 Scenario.bet_on_red
             (Returned {| PlaceBetResponse.id := Scenario.bet_1;
                          PlaceBetResponse.potential_payout := 190 |}));
      [|vm_compute; reflexivity].
    apply bets_as_placed_empty. reflexivity. }
  destruct (Hpaid Scenario.db_both Scenario.db_settled Scenario.red_wins
              Scenario.event_id {| SettleEventResponse.status := "settled" |}
              Hwf eq_refl eq_refl Scenario.bet_1
              {| Bet.user_id := Scenario.red_fan;
                 Bet.event_id := Scenario.event_id;
                 Bet.outcome := "Team Red";
                 Bet.amount := Some 100%float;
                 Bet.odds_at_bet := Some 0x1.e666666666666p+0%float;
                 Bet.status := "pending";
                 Bet.potential_payout := 190;
                 Bet.settled_payout := None |})
    as (b' & Hb' & _ & Hpay & _); [vm_compute; reflexivity..|].
  exists b'. split; [exact Hb'|exact Hpay].
Defined.

(** ** A bettor without a stored balance *)

Lemma SFltb_opp (x : spec_float) :
  SFltb (S754_zero false) x = true -> SFltb (SFopp x) (S754_zero false) = true.
Proof. unfold SFltb. by destruct x as [[]|[]| |[] m e]. Qed.

Lemma ltb_opp (a : float) : (0 <? a)%float = true -> (- a <? 0)%float = true.
Proof.
  rewrite !ltb_spec, opp_spec.
  change (Prim2SF 0) with (S754_zero false). apply SFltb_opp.
Qed.

(** X7: for a bettor whose document stores no balance, a placement that
    returns leaves the stored balance at [-amount], a negative number: the
    check read 1000.0 and [$inc] started from nothing. *)
Theorem missing_balance_goes_negative (d d' : DB.t) (inserted_id : ObjectId)
    (payload : PlaceBet.t) (resp : PlaceBetResponse.t) (bid : ObjectId)
    (bettor : Bettor.t) :
  oid (PlaceBet.bettor_id payload) = Returned bid ->
  DB.bettor d !! bid = Some bettor ->
  Bettor.balance bettor = None ->
  place_bet (Some d) inserted_id payload = (Returned resp, Some d') ->
  exists bettor',
    DB.bettor d' !! bid = Some bettor'
    /\ Bettor.balance bettor' = Some (- PlaceBet.amount payload)%float
    /\ (- PlaceBet.amount payload <? 0)%float = true.
Proof.
  intros Hbid Hbettor Hnone Hrun. pose proof Hrun as Hrun'.
  apply place_bet_returned in Hrun
    as (bid' & eid & ev & chosen & Hbid' & _ & _ & _ & _ & [= ->]).
  rewrite Hbid in Hbid'. injection Hbid' as <-.
  apply place_bet_returned_bet in Hrun'
    as (_ & b & _ & _ & _ & _ & Hplaced & _ & _ & _ & _ & Ham & _).
  destruct Hplaced as (a & o & Ha & _ & Hpos & _).
  rewrite Ham in Ha. injection Ha as <-.
  simpl. rewrite lookup_alter_eq, Hbettor. simpl.
  eexists. split; [reflexivity|]. simpl. rewrite Hnone. simpl.
  split; [done|]. by apply ltb_opp.
Qed.

Lemma missing_balance_goes_negative_witness :
  exists bettor',
    DB.bettor (default Scenario.db0
                 (snd (place_bet (Some Scenario.db0) Scenario.bet_1
                         (Scenario.newcomer_bet 100)))) !! Scenario.newcomer
    = Some bettor'
    /\ Bettor.balance bettor' = Some (-100)%float.
Proof.
  destruct (missing_balance_goes_negative Scenario.db0
              (default Scenario.db0
                 (snd (place_bet (Some Scenario.db0) Scenario.bet_1
                         (Scenario.newcomer_bet 100))))
              Scenario.bet_1 (Scenario.newcomer_bet 100)
              {| PlaceBetResponse.id := Scenario.bet_1;
                 PlaceBetResponse.potential_payout := 210 |}
              Scenario.newcomer
              {| Bettor.display_name := "Newcomer"; Bettor.balance := None |})
    as (bettor' & Hb & Hbal & _); [vm_compute; reflexivity..|].
  exists bettor'. split; [exact Hb|exact Hbal].
Defined.

(** ** Settling twice with the same result *)




(** ** From placement to settlement *)



(** ** Outcomes of the same name *)

Lemma find_first_match {A} (p : A -> bool) (pre post : list A) (x : A) :
  forallb (fun y => negb (p y)) pre = true -> p x = true ->
  List.find p (pre ++ x :: post)%list = Some x.
Proof.
  intros Hpre Hx. induction pre as [|y pre IH]; simpl in *; [by rewrite Hx|].
  apply andb_true_iff in Hpre as [Hy Hpre]. apply negb_true_iff in Hy.
  rewrite Hy. by apply IH.
Qed.

(** X10: when several outcomes of an event carry the name of the request,
    [place_bet] takes the first of them: the potential payout is computed
    from the odds of the first outcome of that name, whatever the odds of
    the later ones. *)
Theorem first_outcome_of_the_name_is_chosen (d d' : DB.t) (inserted_id : ObjectId)
    (payload : PlaceBet.t) (resp : PlaceBetResponse.t) (eid : ObjectId)
    (ev : Event.t) (pre post : list Outcome.t) (o : Outcome.t) :
  oid (PlaceBet.event_id payload) = Returned eid ->
  DB.event d !! eid = Some ev ->
  Event.outcomes ev = (pre ++ o :: post)%list ->
  forallb (fun o' => negb (String.eqb (Outcome.name o') (PlaceBet.outcome payload)))
          pre = true ->
  Outcome.name o = PlaceBet.outcome payload ->
  place_bet (Some d) inserted_id payload = (Returned resp, Some d') ->
  PlaceBetResponse.potential_payout resp
  = round2 (PlaceBet.amount payload * Outcome.odds o)
  /\ (Bet.odds_at_bet <$> DB.bet d' !! inserted_id) = Some (Some (Outcome.odds o)).
Proof.
  intros Heid Hev Houts Hpre Hname Hrun.
  apply place_bet_returned in Hrun
    as (bid & eid' & ev' & chosen & _ & Heid' & Hev' & Hfind & Hpot & [= ->]).
  rewrite Heid in Heid'. injection Heid' as <-.
  rewrite Hev in Hev'. injection Hev' as <-.
  rewrite Houts, (find_first_match _ pre post o) in Hfind;
    [|done|by apply String.eqb_eq].
  injection Hfind as <-. split; [done|].
  simpl. by rewrite lookup_insert_eq.
Qed.

Lemma first_outcome_of_the_name_is_chosen_witness :
  exists resp d',
    place_bet (Some Scenario.db_derby) Scenario.bet_1 Scenario.bet_on_home
    = (Returned resp, Some d')
    /\ PlaceBetResponse.potential_payout resp = 15%float.
Proof.
  destruct (place_bet (Some Scenario.db_derby) Scenario.bet_1 Scenario.bet_on_home)
    as [c o] eqn:Hrun.
  assert (exists resp d', c = Returned resp /\ o = Some d')
    as (resp & d' & -> & ->).
  { vm_compute in Hrun. injection Hrun as <- <-. eauto. }
  exists resp, d'. split; [reflexivity|].
  destruct (first_outcome_of_the_name_is_chosen Scenario.db_derby d'
              Scenario.bet_1 Scenario.bet_on_home resp Scenario.derby_id
              Scenario.derby []
              [ {| Outcome.name := "Away"; Outcome.odds := 2.5 |};
                {| Outcome.name := "Home"; Outcome.odds := 4 |} ]
              {| Outcome.name := "Home"; Outcome.odds := 1.5 |}
              eq_refl eq_refl eq_refl eq_refl eq_refl Hrun) as [Hpot _].
  rewrite Hpot. vm_compute. reflexivity.
Defined.

(** ** [seed_events] *)

(** X11: [seed_events] inserts its two events whatever the store holds,
    so that each call adds two events; the events are open, without a
    result, start at the reading of the clock, and every odds value exceeds
    1.0 as the [Outcome] schema asks; bettors, bets and the events already
    stored are left as they were. *)
Theorem seed_events_adds_two_events (d : DB.t) (now : Z) (id1 id2 : ObjectId) :
  DB.event d !! id1 = None ->
  DB.event d !! id2 = None ->
  id1 <> id2 ->
  exists d',
    seed_events (Some d) now id1 id2 = (Returned [id1; id2], Some d')
    /\ size (DB.event d') = S (S (size (DB.event d)))
    /\ DB.bettor d' = DB.bettor d
    /\ DB.bet d' = DB.bet d
    /\ (forall j ev, DB.event d !! j = Some ev -> DB.event d' !! j = Some ev)
    /\ (forall i, i = id1 \/ i = id2 ->
          exists ev,
            DB.event d' !! i = Some ev
            /\ Event.status ev = "open"
            /\ Event.result ev = None
            /\ Event.start_time ev = now
            /\ forallb (fun o => (1 <? Outcome.odds o)%float) (Event.outcomes ev)
               = true).
Proof.
  intros H1 H2 Hne. eexists. split; [reflexivity|]. simpl.
  split; [|split; [done|split; [done|split]]].
  - rewrite !map_size_insert_None; [done..|]. by rewrite lookup_insert_ne.
  - intros j ev Hj. rewrite !lookup_insert_ne; [done|congruence..].
  - intros i [->| ->].
    + eexists. split; [by rewrite lookup_insert_ne, lookup_insert_eq|].
      by repeat split.
    + eexists. split; [by rewrite lookup_insert_eq|]. by repeat split.
Qed.

Lemma seed_events_adds_two_events_witness :
  exists d',
    seed_events (Some Scenario.db0) 7 Scenario.bet_1 Scenario.bet_2
    = (Returned [Scenario.bet_1; Scenario.bet_2], Some d')
    /\ size (DB.event d') = 3%nat.
Proof.
  destruct (seed_events_adds_two_events Scenario.db0 7 Scenario.bet_1 Scenario.bet_2)
    as (d' & Hrun & Hsize & _);
    [vm_compute; reflexivity | vm_compute; reflexivity | discriminate |].
  exists d'. split; [exact Hrun|]. rewrite Hsize. vm_compute. reflexivity.
Defined.

(** ** [list_events] *)

#[local] Instance starts_before_total : Total starts_before.
Proof. intros x y. unfold starts_before. lia. Qed.

#[local] Instance starts_before_trans : Transitive starts_before.
Proof. intros x y z. unfold starts_before. lia. Qed.

(** X12: [list_events] writes nothing and returns a page of at most 50
    events of the store, each under the text of its identifier, in the
    order of their start times; an event of the store that is not on the
    page starts no earlier than every event on it, and the page is then
    full. *)
Theorem list_events_page (d : DB.t) (isoformat : Z -> string) :
  exists docs,
    list_events (Some d) isoformat
    = (Returned (List.map (serialize_event isoformat) docs), Some d)
    /\ (length docs <= 50)%nat
    /\ StronglySorted starts_before docs
    /\ NoDup (docs.*1)
    /\ (forall i ev, (i, ev) ∈ docs -> DB.event d !! i = Some ev)
    /\ (forall i ev,
          DB.event d !! i = Some ev -> (i, ev) ∉ docs ->
          length docs = 50%nat /\ forall x, x ∈ docs -> starts_before x (i, ev)).
Proof.
  set (sorted := merge_sort starts_before (map_to_list (DB.event d))).
  exists (take 50 sorted). split; [reflexivity|].
  assert (StronglySorted starts_before (take 50 sorted ++ drop 50 sorted)) as Hss.
  { rewrite take_drop. apply StronglySorted_merge_sort; apply _. }
  assert (forall x, x ∈ sorted <-> x ∈ map_to_list (DB.event d)) as Hperm.
  { intros x. unfold sorted. by rewrite merge_sort_Permutation. }
  split; [|split; [|split; [|split]]].
  - rewrite length_take. lia.
  - by apply StronglySorted_app_1_l in Hss.
  - apply (NoDup_fmap_fst _ ).
    + intros i x y Hx%subseteq_take%Hperm Hy%subseteq_take%Hperm.
      apply elem_of_map_to_list in Hx, Hy. congruence.
    + eapply sublist_NoDup; [|apply sublist_take].
      unfold sorted. rewrite merge_sort_Permutation. apply NoDup_map_to_list.
  - intros i ev Hin%subseteq_take%Hperm. by apply elem_of_map_to_list.
  - intros i ev Hev Hout.
    assert ((i, ev) ∈ drop 50 sorted) as Hdrop.
    { apply elem_of_map_to_list, Hperm in Hev.
      rewrite <- (take_drop 50 sorted) in Hev.
      apply elem_of_app in Hev as [Hin|Hin]; done. }
    split.
    + apply length_take_le.
      destruct (decide (50 <= length sorted)%nat) as [Hle|Hgt]; [done|].
      rewrite drop_ge in Hdrop by lia. by apply elem_of_nil in Hdrop.
    + intros x Hx. by apply (StronglySorted_app_1_elem_of _ _ _ _ _ Hss).
Qed.

(** ** [create_bettor] and [get_bettor] *)

Lemma get_bettor_unfold (d : DB.t) (bettor_id : string) :
  get_bettor (Some d) bettor_id =
  match oid bettor_id with
  | Raised e => (Raised e, Some d)
  | Returned i =>
      match DB.bettor d !! i with
      | None => (Raised (HTTPException 404 "Bettor not found"), Some d)
      | Some doc => (Returned (serialize_bettor (i, doc)), Some d)
      end
  end.
Proof.
  unfold get_bettor, with_db, bind, lift, find_one_bettor, gets, raise_if_not.
  destruct (oid bettor_id) as [i|e]; [|reflexivity].
  by destruct (DB.bettor d !! i).
Qed.

(** X13: a bettor made by [create_bettor] is read back by [get_bettor]
    under the identifier that was returned, with the name of the request
    and a balance of 1000.0; the creation changes no event, no bet and no
    other bettor, and [get_bettor] writes nothing, answering 404 for an
    identifier that is not stored. *)
Theorem created_bettor_is_read_back (d : DB.t) (inserted_id : ObjectId)
    (payload : CreateBettor.t) :
  oid inserted_id = Returned inserted_id ->
  exists d',
    create_bettor (Some d) inserted_id payload = (Returned inserted_id, Some d')
    /\ get_bettor (Some d') inserted_id
       = (Returned {| Serialized.b_id := inserted_id;
                      Serialized.b_display_name := CreateBettor.display_name payload;
                      Serialized.b_balance := Some 1000%float |}, Some d')
    /\ DB.event d' = DB.event d
    /\ DB.bet d' = DB.bet d
    /\ (forall u, u <> inserted_id -> DB.bettor d' !! u = DB.bettor d !! u)
    /\ (forall text u,
          oid text = Returned u -> u <> inserted_id ->
          fst (get_bettor (Some d') text) = fst (get_bettor (Some d) text))
    /\ (forall text u,
          oid text = Returned u -> DB.bettor d' !! u = None ->
          get_bettor (Some d') text
          = (Raised (HTTPException 404 "Bettor not found"), Some d')).
Proof.
  intros Hid.
  exists {| DB.event := DB.event d;
            DB.bettor :=
              <[inserted_id := {| Bettor.display_name := CreateBettor.display_name payload;
                                  Bettor.balance := Some 1000%float |}]> (DB.bettor d);
            DB.bet := DB.bet d |}.
  split; [reflexivity|].
  split; [|split; [done|split; [done|split; [|split]]]].
  - rewrite get_bettor_unfold, Hid. cbn [DB.bettor]. by rewrite lookup_insert_eq.
  - intros u Hu. cbn [DB.bettor]. by rewrite lookup_insert_ne.
  - intros text u Htext Hu. rewrite !get_bettor_unfold, Htext. cbn [DB.bettor].
    rewrite lookup_insert_ne by done. by destruct (DB.bettor d !! u).
  - intros text u Htext Hnone. rewrite get_bettor_unfold, Htext.
    by rewrite Hnone.
Qed.

Lemma created_bettor_is_read_back_witness :
  exists d',
    create_bettor (Some Scenario.db0) Scenario.bet_1
      {| CreateBettor.display_name := "Ada" |}
    = (Returned Scenario.bet_1, Some d')
    /\ get_bettor (Some d') Scenario.bet_1
       = (Returned {| Serialized.b_id := Scenario.bet_1;
                      Serialized.b_display_name := "Ada";
                      Serialized.b_balance := Some 1000%float |}, Some d').
Proof.
  destruct (created_bettor_is_read_back Scenario.db0 Scenario.bet_1
              {| CreateBettor.display_name := "Ada" |})
    as (d' & Hcreate & Hget & _); [vm_compute; reflexivity|].
  exists d'. split; [exact Hcreate|exact Hget].
Defined.

(** ** [list_bets] *)

(** X14: [list_bets] writes nothing and never rejects the text of the
    request: it lists exactly the bets whose [user_id] is that text,
    character for character.  On a store whose bets were all placed through
    [place_bet], a text that is not the lower-case form of an identifier
    therefore lists no bet, also when [get_bettor] finds a bettor under
    it. *)
Theorem list_bets_matches_the_text (d : DB.t)
    (newest_first : list (ObjectId * Bet.t) -> list (ObjectId * Bet.t))
    (bettor_id : string) :
  (forall l, newest_first l ≡ₚ l) ->
  exists docs,
    list_bets (Some d) newest_first bettor_id
    = (Returned (List.map serialize_bet docs), Some d)
    /\ (forall i b,
          (i, b) ∈ docs <-> DB.bet d !! i = Some b /\ Bet.user_id b = bettor_id)
    /\ (bets_as_placed d -> oid bettor_id <> Returned bettor_id -> docs = []).
Proof.
  intros Hperm. eexists. split; [reflexivity|].
  assert (forall i b,
             (i, b) ∈ newest_first
                        (List.filter
                           (fun ib : ObjectId * Bet.t =>
                              String.eqb (Bet.user_id (snd ib)) bettor_id)
                           (map_to_list (DB.bet d)))
             <-> DB.bet d !! i = Some b /\ Bet.user_id b = bettor_id) as Hin.
  { intros i b. rewrite Hperm, elem_of_filter_bool, elem_of_map_to_list. simpl.
    by rewrite String.eqb_eq. }
  split; [exact Hin|].
  intros Hwf Hbad. apply elem_of_nil_inv. intros [i b] Hib.
  apply Hin in Hib as [Hb Hu]. apply Hbad.
  destruct (Hwf i b Hb) as (_ & _ & _ & _ & _ & _ & _ & _ & Hcanon & _).
  by rewrite <- Hu.
Qed.

Lemma list_bets_matches_the_text_witness :
  fst (list_bets (Some Scenario.db_both) reverse "65A1F0C2B3D4E5F607182931")
  = Returned []
  /\ exists docs,
      list_bets (Some Scenario.db_both) reverse Scenario.red_fan
      = (Returned (List.map serialize_bet docs), Some Scenario.db_both)
      /\ exists b, (Scenario.bet_1, b) ∈ docs.
Proof.
  split; [vm_compute; reflexivity|].
  destruct (list_bets_matches_the_text Scenario.db_both reverse Scenario.red_fan)
    as (docs & Hrun & Hin & _); [intros l; apply reverse_Permutation|].
  exists docs. split; [exact Hrun|].
  eexists. apply Hin. split; vm_compute; reflexivity.
Defined.

(** ** A settled event *)



(** ** Settling again with another result *)






(** ** Staking the whole balance *)

(** X17: the balance check of [place_bet] refuses a stake only when it is
    greater than the balance (the stored one, 1000.0 when none is stored):
    for a bet that passes the first five preconditions, "Insufficient
    balance" is raised exactly when [balance < amount], and a stake up to
    and including the whole balance passes all six. *)
Theorem whole_balance_can_be_staked (d : DB.t) (inserted_id : ObjectId)
    (payload : PlaceBet.t) (bid eid : ObjectId) (bettor : Bettor.t) :
  oid (PlaceBet.bettor_id payload) = Returned bid ->
  oid (PlaceBet.event_id payload) = Returned eid ->
  DB.bettor d !! bid = Some bettor ->
  Placement.event_exists d eid
  && Placement.event_open d eid
  && Placement.outcome_matches d eid (PlaceBet.outcome payload)
  && Placement.amount_positive (PlaceBet.amount payload) = true ->
  ((Placement.balance_or_default bettor <? PlaceBet.amount payload)%float = true ->
   place_bet (Some d) inserted_id payload
   = (Raised (HTTPException 400 "Insufficient balance"), Some d))
  /\ ((PlaceBet.amount payload <=? Placement.balance_or_default bettor)%float = true ->
      Placement.all_hold d bid eid (PlaceBet.outcome payload)
        (PlaceBet.amount payload) = true
      /\ forall code detail,
           fst (place_bet (Some d) inserted_id payload)
           <> Raised (HTTPException code detail)).
Proof.
  intros Hbid Heid Hbettor Hpre.
  assert (Placement.bettor_exists d bid = true) as Hb
    by (unfold Placement.bettor_exists; by rewrite Hbettor).
  apply andb_true_iff in Hpre as [Hpre Hpos].
  apply andb_true_iff in Hpre as [Hpre Hout].
  apply andb_true_iff in Hpre as [Hex Hopen].
  split.
  - intros Hlt. apply (place_bet_violation d inserted_id payload bid eid); [done..|].
    unfold Placement.first_violation. rewrite Hb, Hex, Hopen, Hout, Hpos. simpl.
    unfold Placement.amount_covered. by rewrite Hbettor, Hlt.
  - intros Hle. apply leb_not_ltb in Hle.
    assert (Placement.amount_covered d bid (PlaceBet.amount payload) = true) as Hcov
      by (unfold Placement.amount_covered; by rewrite Hbettor, Hle).
    assert (Placement.first_violation d bid eid (PlaceBet.outcome payload)
              (PlaceBet.amount payload) = None) as Hnone
      by (unfold Placement.first_violation;
          by rewrite Hb, Hex, Hopen, Hout, Hpos, Hcov).
    split.
    + unfold Placement.all_hold. by rewrite Hb, Hex, Hopen, Hout, Hpos, Hcov.
    + intros code detail.
      destruct (place_bet_no_violation d inserted_id payload bid eid Hbid Heid Hnone)
        as [(resp & d' & ->)|(fields & ->)]; done.
Qed.

Lemma whole_balance_can_be_staked_witness :
  Placement.all_hold Scenario.db0 Scenario.red_fan Scenario.event_id
    "Team Blue" 1000%float = true
  /\ balance_of (snd (place_bet (Some Scenario.db0) Scenario.bet_1 Scenario.all_in))
       Scenario.red_fan = Some 0%float.
Proof.
  split; [|vm_compute; reflexivity].
  apply (whole_balance_can_be_staked Scenario.db0 Scenario.bet_1 Scenario.all_in
           Scenario.red_fan Scenario.event_id
           {| Bettor.display_name := "Red fan"; Bettor.balance := Some 1000%float |});
    vm_compute; reflexivity.
Defined.
